(** * Serializable.h: tagged byte codec, member decode and prototype factory

    A shallow embedding of [namespace serial] of [Serializable.h].

    Conventions of the embedding.
    - A template parameter [T] is a [CType]: its category
      ([std::is_integral], [std::is_floating_point], neither), its
      signedness and its [sizeof].
    - A value of an integral type is the integer it denotes.  A value of a
      floating type is its bit pattern, an unsigned integer of the width
      of the type: the header only ever moves a floating value through a
      [union], never computes with it.
    - [uchar], [uint32_t] and the conversions [static_cast<T>] are written
      with their wrap-around.
    - The host byte order is a parameter [host] of every function that
      calls [htoleN]/[leNtoh] or tests [__BYTE_ORDER].
    - Building a [ByteVec] from an iterator range reads the range; a range
      that ends past [end()] is reported as [Fault OutOfBounds].
    - Which [OutStreamHelper] an operand of [operator<<] selects depends
      on how its type is spelled ([Spelling]); what the selected
      [streamOut] prints on [std::cout] is left out.
    - Objects live in a heap indexed by addresses; a [Serializable*] is an
      address or [NULL].
    - [sizeof(size_t)] is 8 and [unsigned int] has 32 bits.
    - The header has three lexical slips in the functions embedded here,
      read in the only way the surrounding text allows: the counter of
      the loop of [_readArrayInt] is declared [ii] and used as [i] (one
      counter); [t,begin()] in [_getSize(const ByteVec&)] is [t.begin()];
      [_readArray<T>] calls [_readArrayInt] and [_readArrayFloat] at its
      own [T].  A fourth, [members.end()] in [Serializable::contains], is
      read as [_members.end()]. *)

From Stdlib Require Import ZArith List Bool Lia.
From stdpp Require Import gmap strings list fin_maps.

Local Open Scope Z_scope.

(* ------------------------------------------------------------------ *)
(** ** Types and tags *)

(** [enum Type]; [Type] is a keyword here, hence the name. *)
Inductive TypeKey :=
  | NONE | UINT8 | INT8 | UINT16 | INT16 | UINT32 | INT32
  | UINT64 | INT64 | FLT32 | FLT64 | FLT128.

Global Instance TypeKey_eq_dec : EqDecision TypeKey.
Proof. solve_decision. Defined.

Inductive Category :=
  | Integral (is_signed : bool)
  | Floating
  | Other.

Record CType := { category : Category; sizeof : Z }.

Inductive ByteOrder := LITTLE_ENDIAN | BIG_ENDIAN.

Definition ByteVec := list Z.
Definition SerializedMember := (TypeKey * ByteVec)%type.

Definition CHAR_BIT : Z := 8.

Definition uchar (z : Z) : Z := z mod 2 ^ 8.
Definition uint32 (z : Z) : Z := z mod 2 ^ 32.

(** The fixed-width types the header names. *)
Definition uint8_t  : CType := {| category := Integral false; sizeof := 1 |}.
Definition int8_t   : CType := {| category := Integral true;  sizeof := 1 |}.
Definition uint16_t : CType := {| category := Integral false; sizeof := 2 |}.
Definition int16_t  : CType := {| category := Integral true;  sizeof := 2 |}.
Definition uint32_t : CType := {| category := Integral false; sizeof := 4 |}.
Definition int32_t  : CType := {| category := Integral true;  sizeof := 4 |}.
Definition uint64_t : CType := {| category := Integral false; sizeof := 8 |}.
Definition int64_t  : CType := {| category := Integral true;  sizeof := 8 |}.
Definition float_t       : CType := {| category := Floating; sizeof := 4 |}.
Definition double_t      : CType := {| category := Floating; sizeof := 8 |}.
Definition long_double_t : CType := {| category := Floating; sizeof := 16 |}.

(** Width in bits of the object representation of [T]. *)
Definition bits (T : CType) : Z := CHAR_BIT * sizeof T.

Definition wrap_unsigned (w z : Z) : Z := z mod 2 ^ w.
Definition wrap_signed (w z : Z) : Z := (z + 2 ^ (w - 1)) mod 2 ^ w - 2 ^ (w - 1).

(** [static_cast<T>(z)] for an integer [z]. *)
Definition static_cast (T : CType) (z : Z) : Z :=
  match category T with
  | Integral true => wrap_signed (bits T) z
  | Integral false => wrap_unsigned (bits T) z
  | Floating | Other => z
  end.

(** The values of [T]. *)
Definition representable (T : CType) (v : Z) : Prop :=
  match category T with
  | Integral true => - 2 ^ (bits T - 1) <= v < 2 ^ (bits T - 1)
  | Integral false | Floating => 0 <= v < 2 ^ bits T
  | Other => True
  end.

(** [template <typename T> uchar _getSize()]. *)
Definition _getSize (T : CType) : Z :=
  let raw := uchar (CHAR_BIT * sizeof T) in
  let remainder := uchar (raw mod 8) in
  if 0 =? remainder then raw else uchar (raw + 8 - remainder).

Definition _getTypeKeyInt (T : CType) : TypeKey :=
  let is_signed := match category T with Integral s => s | _ => false end in
  match _getSize T with
  | 8 => if is_signed then INT8 else UINT8
  | 16 => if is_signed then INT16 else UINT16
  | 32 => if is_signed then INT32 else UINT32
  | 64 => if is_signed then INT64 else UINT64
  | _ => NONE
  end.

Definition _getTypeKeyFloat (T : CType) : TypeKey :=
  match _getSize T with
  | 32 => FLT32
  | 64 => FLT64
  | 128 => FLT128
  | _ => NONE
  end.

Definition _getTypeKey (T : CType) : TypeKey :=
  match category T with
  | Integral _ => _getTypeKeyInt T
  | Floating => _getTypeKeyFloat T
  | Other => NONE
  end.

(* ------------------------------------------------------------------ *)
(** ** <endian.h> *)

(** The bytes of a [w]-bit value, least significant first, and back. *)
Fixpoint bytes_of (n : nat) (z : Z) : list Z :=
  match n with
  | O => []
  | S n' => z mod 2 ^ 8 :: bytes_of n' (Z.shiftr z 8)
  end.

Fixpoint of_bytes (bs : list Z) : Z :=
  match bs with
  | [] => 0
  | b :: bs' => Z.lor b (Z.shiftl (of_bytes bs') 8)
  end.

Definition bswap (w : Z) (z : Z) : Z :=
  of_bytes (rev (bytes_of (Z.to_nat (w / 8)) z)).

(** [htole16], [htole32], [htole64]: the argument is converted to the
    unsigned [w]-bit parameter type, and swapped on a big-endian host. *)
Definition htole (w : Z) (host : ByteOrder) (z : Z) : Z :=
  match host with
  | LITTLE_ENDIAN => wrap_unsigned w z
  | BIG_ENDIAN => bswap w (wrap_unsigned w z)
  end.

(** [le16toh], [le32toh], [le64toh]. *)
Definition letoh (w : Z) (host : ByteOrder) (z : Z) : Z :=
  match host with
  | LITTLE_ENDIAN => wrap_unsigned w z
  | BIG_ENDIAN => bswap w (wrap_unsigned w z)
  end.

(* ------------------------------------------------------------------ *)
(** ** Scalar encoder *)

(** [for (uchar i = 0; i < size; i += 8) val.push_back(uchar(le_input >> i))];
    [n] is the number of iterations left. *)
Fixpoint fill_loop (le_input : Z) (i : Z) (n : nat) : ByteVec :=
  match n with
  | O => []
  | S n' => uchar (Z.shiftr le_input i) :: fill_loop le_input (i + 8) n'
  end.

Definition _fillArrayInt (host : ByteOrder) (T : CType) (input : Z) : ByteVec :=
  let size := _getSize T in
  let le_input :=
    match size with
    | 8 => input
    | 16 => static_cast T (htole 16 host input)
    | 32 => static_cast T (htole 32 host input)
    | 64 => static_cast T (htole 64 host input)
    | _ => input
    end in
  fill_loop le_input 0 (Z.to_nat ((size + 7) / 8)).

(** [union { T in; O out; }]: the integer of type [O] that shares the
    object representation [input]. *)
Definition _floatToInt (host : ByteOrder) (O : CType) (input : Z) : ByteVec :=
  _fillArrayInt host O (static_cast O input).

(** [union { T in; int64_t out[2]; }]: [out[0]] is the limb at the lower
    address. *)
Definition limbs_of (host : ByteOrder) (input : Z) : Z * Z :=
  let lo := static_cast int64_t (input mod 2 ^ 64) in
  let hi := static_cast int64_t (Z.shiftr input 64 mod 2 ^ 64) in
  match host with
  | LITTLE_ENDIAN => (lo, hi)
  | BIG_ENDIAN => (hi, lo)
  end.

Definition _floatToInt128 (host : ByteOrder) (input : Z) : ByteVec :=
  let out := limbs_of host input in
  let arr0 := _fillArrayInt host int64_t (fst out) in
  let arr1 := _fillArrayInt host int64_t (snd out) in
  arr0 ++ arr1.

Definition _fillArrayFloat (host : ByteOrder) (T : CType) (input : Z) : ByteVec :=
  match _getSize T with
  | 32 => _floatToInt host int32_t input
  | 64 => _floatToInt host int64_t input
  | 128 => _floatToInt128 host input
  | _ => []
  end.

Definition _fillArray (host : ByteOrder) (T : CType) (input : Z) : ByteVec :=
  match category T with
  | Integral _ => _fillArrayInt host T input
  | Floating => _fillArrayFloat host T input
  | Other => []
  end.

Definition _setSize (host : ByteOrder) (arr : ByteVec) (size : Z) : ByteVec :=
  _fillArrayInt host uint32_t (uint32 size) ++ arr.

(* ------------------------------------------------------------------ *)
(** ** Scalar decoder *)

(** One pass of the body [v |= static_cast<T>(input.at(i/8)) << i]; the
    index [i/8] is below [input.size()] there, and what the shift pushes
    out of the width of [T] is dropped by the assignment. *)
Definition read_step (T : CType) (input : ByteVec) (v : Z) (i : Z) : Z :=
  static_cast T (Z.lor v (Z.shiftl (static_cast T (nth (Z.to_nat (i / 8)) input 0)) i)).

(** [for (uchar i = 0; i < size; ++i) ...]; [n] is the number of
    iterations left. *)
Fixpoint read_loop (T : CType) (input : ByteVec) (v : Z) (i : Z) (n : nat) : Z :=
  match n with
  | O => v
  | S n' => read_loop T input (read_step T input v i) (i + 1) n'
  end.

Definition _readArrayInt (host : ByteOrder) (T : CType) (input : ByteVec) : Z :=
  let size := _getSize T in
  if negb (size / 8 =? Z.of_nat (length input)) then static_cast T 0
  else
    let v := read_loop T input 0 0 (Z.to_nat size) in
    match size with
    | 8 => v
    | 16 => static_cast T (letoh 16 host v)
    | 32 => static_cast T (letoh 32 host v)
    | 64 => static_cast T (letoh 64 host v)
    | _ => v
    end.

(** [union { T in; O out; }] read back: the object representation of the
    integer. *)
Definition _intToFloat (host : ByteOrder) (T : CType) (input : ByteVec) : Z :=
  wrap_unsigned (bits T) (_readArrayInt host T input).

(** [union { int64_t in[2]; O out; }] read back: [in[0]] is the limb at
    the lower address. *)
Definition limbs_to (host : ByteOrder) (in0 in1 : Z) : Z :=
  match host with
  | LITTLE_ENDIAN => Z.lor (in0 mod 2 ^ 64) (Z.shiftl (in1 mod 2 ^ 64) 64)
  | BIG_ENDIAN => Z.lor (in1 mod 2 ^ 64) (Z.shiftl (in0 mod 2 ^ 64) 64)
  end.

Definition _intToFloat128 (host : ByteOrder) (input : ByteVec) : Z :=
  if negb (Z.of_nat (length input) =? 16) then 0
  else
    let arr0 := _readArrayInt host int64_t (firstn 8 input) in
    let arr1 := _readArrayInt host int64_t (skipn 8 input) in
    let data_in :=
      match host with
      | LITTLE_ENDIAN => (arr0, arr1)
      | BIG_ENDIAN => (arr1, arr0)
      end in
    limbs_to host (fst data_in) (snd data_in).

Definition _readArrayFloat (host : ByteOrder) (T : CType) (input : ByteVec) : Z :=
  let size := _getSize T in
  if negb (size / 8 =? Z.of_nat (length input)) then 0
  else
    match size with
    | 32 => _intToFloat host int32_t input
    | 64 => _intToFloat host int64_t input
    | 128 => _intToFloat128 host input
    | _ => 0
    end.

Definition _readArray (host : ByteOrder) (T : CType) (input : ByteVec) : Z :=
  match category T with
  | Integral _ => _readArrayInt host T input
  | Floating => _readArrayFloat host T input
  | Other => 0
  end.

(* ------------------------------------------------------------------ *)
(** ** Outcomes, and reading ranges of a buffer *)

(** What a call does: it returns, or it leaves defined behaviour by
    reading past the end of a buffer, through a pointer to no object, or
    by flowing off the end of a function that returns a value. *)
Inductive fault := OutOfBounds | DanglingPointer | MissingReturn.

Inductive outcome (A : Type) :=
  | Done (a : A)
  | Fault (e : fault).
Arguments Done {A} a.
Arguments Fault {A} e.

Global Instance outcome_bind : MBind outcome := fun A B f m =>
  match m with
  | Done a => f a
  | Fault e => Fault e
  end.

(** [ByteVec(t.begin() + lo, t.begin() + hi)]. *)
Definition range (t : ByteVec) (lo hi : Z) : outcome ByteVec :=
  if (0 <=? lo) && (lo <=? hi) && (hi <=? Z.of_nat (length t))
  then Done (firstn (Z.to_nat (hi - lo)) (skipn (Z.to_nat lo) t))
  else Fault OutOfBounds.

(** [uint32_t _getSize(const ByteVec& t)]. *)
Definition _getSize_ByteVec (host : ByteOrder) (t : ByteVec) : outcome Z :=
  sizeVec ← range t 0 4;
  Done (_readArrayInt host uint32_t sizeVec).

(* ------------------------------------------------------------------ *)
(** ** operator<< *)

(** [OutStreamHelper<T>::streamOut], the primary template; the result is
    the member [k] after the call.  [operator<<] selects it for every
    integral and floating type, and for every other type that is neither
    an array nor an instance of a class template (see [operator_shl]
    below). *)
Definition streamOut (host : ByteOrder) (T : CType)
    (k : SerializedMember) (v : Z) : SerializedMember :=
  let t := _fillArray host T v in
  if Z.of_nat (length t) =? 0 then k
  else (_getTypeKey T, _setSize host t 1).

(** The loop of [fillOutputVector] over the range [begin, end), with the
    counter [size] and the buffer [t]. *)
Fixpoint fillOutputVector_loop (host : ByteOrder) (T : CType)
    (s : list Z) (size : Z) (t : ByteVec) : Z * ByteVec :=
  match s with
  | [] => (size, t)
  | x :: s' =>
      let member := _fillArray host T x in
      if Z.of_nat (length member) =? 0
      then fillOutputVector_loop host T s' (uint32 (size - 1)) t
      else fillOutputVector_loop host T s' size (t ++ member)
  end.

Definition fillOutputVector (host : ByteOrder) (T : CType) (s : list Z) : ByteVec :=
  let size := uint32 (Z.of_nat (length s)) in
  let r := fillOutputVector_loop host T s size [] in
  _setSize host (snd r) (fst r).

(** [OutStreamHelper<T[N]>::streamOut]; [v] holds the [N] elements. *)
Definition streamOut_array (host : ByteOrder) (T : CType)
    (k : SerializedMember) (v : list Z) : SerializedMember :=
  (_getTypeKey T, fillOutputVector host T v).

(** How the type of the right operand of [operator<<] is spelled, as far
    as the partial specialisations of [OutStreamHelper] can tell an
    operand that is not an array:
    - [ClassTemplate4]: an instance [Container<Key, T, C, A>] of a class
      template with four type parameters, such as [std::map];
    - [ClassTemplate]: any other instance [Container<T, Add...>] of a
      class template with type parameters only, such as [std::string],
      [std::pair] and [std::vector] (the specialisation written for
      [std::vector<T>] has a parameter [N] that cannot be deduced and is
      never selected);
    - [Plain]: everything else: the fundamental types, pointers, classes
      that are not instances of such a template.
    An integral or floating type is [Plain]. *)
Inductive Spelling := Plain | ClassTemplate4 | ClassTemplate.

(** [operator<<(k, v)] for an operand that is not an array: the member [k]
    after the call.  Both [streamOut] of [OutStreamHelper<Container<Key,
    T, C, A>>] print a label and return [k]; [streamOut] of
    [OutStreamHelper<Container<T, Add...>>] prints a label and has no
    [return]. *)
Definition operator_shl (host : ByteOrder) (T : CType) (sp : Spelling)
    (k : SerializedMember) (v : Z) : outcome SerializedMember :=
  match sp with
  | Plain => Done (streamOut host T k v)
  | ClassTemplate4 => Done k
  | ClassTemplate => Fault MissingReturn
  end.

(* ------------------------------------------------------------------ *)
(** ** operator>> *)

(** [InStreamHelper<T>::streamIn]; the result is the destination [v]
    after the call. *)
Definition streamIn (host : ByteOrder) (T : CType)
    (k : SerializedMember) (v : Z) : outcome Z :=
  if negb (bool_decide (fst k = _getTypeKey T))
     || (Z.of_nat (length (snd k)) <? _getSize T / 8 + 4)
  then Done v
  else
    copy ← range (snd k) 4 (4 + _getSize T / 8);
    Done (_readArray host T copy).

(** The loop of [readByteVec]; the result lists the values assigned
    through the output iterator, in order. *)
Fixpoint readByteVec_loop (host : ByteOrder) (T : CType) (input : ByteVec)
    (indSize : Z) (idx : Z) (n : nat) : outcome (list Z) :=
  match n with
  | O => Done []
  | S n' =>
      copy ← range input (4 + idx * indSize) (4 + (idx + 1) * indSize);
      rest ← readByteVec_loop host T input indSize (idx + 1) n';
      Done (_readArray host T copy :: rest)
  end.

(** [readByteVec<T>(begin, input, outsize)]: the values written through
    [begin], in order. *)
Definition readByteVec (host : ByteOrder) (T : CType)
    (input : ByteVec) (outsize : Z) : outcome (list Z) :=
  size ← _getSize_ByteVec host input;
  let indSize := uchar (_getSize T / 8) in
  if Z.of_nat (length input) <? uint32 (size * indSize + 4) then Done []
  else
    let readSize := if 0 <? outsize then Z.min size outsize else size in
    readByteVec_loop host T input indSize 0 (Z.to_nat readSize).

(** Assigning [ws] through a pointer to the first element of an array. *)
Definition write_array (v : list Z) (ws : list Z) : list Z :=
  ws ++ skipn (length ws) v.

(** [InStreamHelper<T[N]>::streamIn]; [v] holds the [N] elements. *)
Definition streamIn_array (host : ByteOrder) (T : CType)
    (k : SerializedMember) (v : list Z) : outcome (list Z) :=
  if negb (bool_decide (fst k = _getTypeKey T)) then Done v
  else
    ws ← readByteVec host T (snd k) (Z.of_nat (length v));
    Done (write_array v ws).

(** [InStreamHelper<std::vector<T>>::streamIn]. *)
Definition streamIn_vector (host : ByteOrder) (T : CType)
    (k : SerializedMember) (v : list Z) : outcome (list Z) :=
  if negb (bool_decide (fst k = _getTypeKey T)) then Done v
  else
    ws ← readByteVec host T (snd k) 0;
    Done (v ++ ws).

(* ------------------------------------------------------------------ *)
(** ** class Serializable and class Factory *)

(** A [Serializable*]: an address, or [NULL]. *)
Abbreviation ptr := N (only parsing).
Definition NULL : ptr := 0%N.

(** An object of a concrete subclass of [Serializable]: the class it was
    constructed as, and its [_members]. *)
Record Object := {
  dynamic_type : string;
  _members : gmap string SerializedMember
}.

(** The heap of [Serializable] objects and the [_serializables] map of one
    [Factory]. *)
Record State := {
  heap : gmap N Object;
  _serializables : gmap string N
}.

(** Modelled from the spec: the overriders of the pure virtual
    [Serializable::create()] in the concrete subclasses, none of which is
    in the header.  Each produces a new, blank instance of its own
    concrete type, at an address that holds no object yet. *)
Definition virtual_create (self : Object) (h : gmap N Object) : ptr * gmap N Object :=
  let q := fresh ({[NULL]} ∪ dom h) in
  (q, <[q := {| dynamic_type := dynamic_type self; _members := ∅ |}]> h).

(** [Factory::add]. *)
Definition add (cName : string) (cInst : ptr) (st : State) : State :=
  if bool_decide (cInst = NULL) then st
  else
    match _serializables st !! cName with
    | None => {| heap := heap st; _serializables := <[cName := cInst]> (_serializables st) |}
    | Some _ => st
    end.

(** [Factory::create]: the pointer returned and the state after. *)
Definition create (cName : string) (st : State) : outcome (ptr * State) :=
  match _serializables st !! cName with
  | None => Done (NULL, st)
  | Some p =>
      match heap st !! p with
      | None => Fault DanglingPointer
      | Some self =>
          let r := virtual_create self (heap st) in
          Done (fst r, {| heap := snd r; _serializables := _serializables st |})
      end
  end.

(** [delete p]. *)
Definition delete_object (p : ptr) (h : gmap N Object) : outcome (gmap N Object) :=
  if bool_decide (p = NULL) then Done h
  else
    match h !! p with
    | None => Fault DanglingPointer
    | Some _ => Done (delete p h)
    end.

(** [Factory::~Factory]: the heap after every stored prototype is
    deleted and the map cleared. *)
Definition Factory_dtor (st : State) : outcome State :=
  h ← map_fold (fun _ p acc => h ← acc; delete_object p h)
               (Done (heap st)) (_serializables st);
  Done {| heap := h; _serializables := ∅ |}.

(* ------------------------------------------------------------------ *)
(** ** The member store of a Serializable, and sequences of calls *)

(** [Serializable::key]: [_members[k]], the member stored under [k], which
    is created empty when [k] is absent; the result is the member the
    returned reference designates and the object after the call. *)
Definition key (k : string) (o : Object) : SerializedMember * Object :=
  match _members o !! k with
  | Some m => (m, o)
  | None =>
      ((NONE, []),
       {| dynamic_type := dynamic_type o;
          _members := <[k := (NONE, [])]> (_members o) |})
  end.

(** [Serializable::contains]. *)
Definition contains (k : string) (o : Object) : bool :=
  bool_decide (is_Some (_members o !! k)).

(** The statement [o.key(k) << v] for a [v] whose type takes the primary
    template of [OutStreamHelper] (a [Plain] type): [streamOut] assigns
    through the reference [key] returns. *)
Definition key_streamOut (host : ByteOrder) (T : CType)
    (k : string) (v : Z) (o : Object) : Object :=
  let r := key k o in
  {| dynamic_type := dynamic_type (snd r);
     _members := <[k := streamOut host T (fst r) v]> (_members (snd r)) |}.

(** The statement [o.key(k) << v] for an operand of any type that is not
    an array, with the dispatch of [operator<<]: the object after. *)
Definition key_operator_shl (host : ByteOrder) (T : CType) (sp : Spelling)
    (k : string) (v : Z) (o : Object) : outcome Object :=
  let r := key k o in
  m ← operator_shl host T sp (fst r) v;
  Done {| dynamic_type := dynamic_type (snd r);
          _members := <[k := m]> (_members (snd r)) |}.

(** The statement [o.key(k) >> v] for a scalar destination [v]: the
    destination and the object after. *)
Definition key_streamIn (host : ByteOrder) (T : CType)
    (k : string) (v : Z) (o : Object) : outcome Z * Object :=
  let r := key k o in
  (streamIn host T (fst r) v, snd r).

(** [add] called once for each pair of [l], in order. *)
Definition add_all (l : list (string * N)) (st : State) : State :=
  fold_left (fun st c => add (fst c) (snd c) st) l st.

(** The first non-null pointer that [l] pairs with [cName]. *)
Fixpoint first_registered (cName : string) (l : list (string * N)) : option N :=
  match l with
  | [] => None
  | c :: l' =>
      if bool_decide (fst c = cName) && negb (bool_decide (snd c = NULL))
      then Some (snd c)
      else first_registered cName l'
  end.

(** The pointers a registry holds, one per name. *)
Definition prototypes (st : State) : list N :=
  (map_to_list (_serializables st)).*2.

(** Every prototype the registry holds is a live object, and no object is
    held under two names. *)
Definition owns_prototypes (st : State) : Prop :=
  NoDup (prototypes st)
  /\ Forall (fun p => p <> NULL /\ is_Some (heap st !! p)) (prototypes st).

(* ------------------------------------------------------------------ *)
(** ** The wire layout as the specification words it *)

(** A type is supported when it has a tag. *)
Definition supported (T : CType) : Prop := _getTypeKey T <> NONE.

(** [byteWidth(T)]: bit width over eight. *)
Definition byteWidth (T : CType) : Z := _getSize T / 8.

(** A 4-byte count prefix read as a little-endian [u32]. *)
Definition le_u32 (buf : ByteVec) : Z := of_bytes (firstn 4 buf).

(** The encodings of the elements of [s] that are not empty, in the order
    of [s]. *)
Definition encoded (host : ByteOrder) (T : CType) (s : list Z) : list ByteVec :=
  filter (fun e : ByteVec => e <> []) (map (_fillArray host T) s).

(** The blank instance a prototype [self] clones itself into. *)
Definition blank (self : Object) : Object :=
  {| dynamic_type := dynamic_type self; _members := ∅ |}.

(** The values of [uchar]. *)
Definition is_byte (b : Z) : Prop := 0 <= b < 2 ^ 8.

(** The scalar types the header gives a tag to. *)
Definition scalar_types : list CType :=
  [uint8_t; int8_t; uint16_t; int16_t; uint32_t; int32_t; uint64_t; int64_t;
   float_t; double_t; long_double_t].

(* ------------------------------------------------------------------ *)
(** ** Sizes and tags *)

Lemma _getSize_range T : 0 <= _getSize T < 256 /\ _getSize T mod 8 = 0.
Proof.
  unfold _getSize, uchar, CHAR_BIT.
  change (2 ^ 8) with (8 * 32).
  rewrite Z.mul_mod_distr_l by lia.
  assert (Hs : 0 <= sizeof T mod 32 < 32) by (apply Z.mod_pos_bound; lia).
  replace ((8 * (sizeof T mod 32)) mod 8) with 0
    by (rewrite Z.mul_comm, Z.mod_mul; lia).
  rewrite Z.mod_0_l by lia. simpl.
  split; [lia | rewrite Z.mul_comm, Z.mod_mul; lia].
Qed.

Lemma byteWidth_iterations T : (_getSize T + 7) / 8 = byteWidth T.
Proof.
  unfold byteWidth. destruct (_getSize_range T) as [_ Hm].
  rewrite (Z.div_mod (_getSize T) 8) at 1 by lia. rewrite Hm, Z.add_0_r.
  rewrite Z.mul_comm, Z.div_add_l by lia.
  rewrite (Z.div_small 7 8) by lia. lia.
Qed.

(** The sizes behind each tag. *)
Lemma supported_sizes T :
  supported T ->
  (exists s, category T = Integral s /\
     (_getSize T = 8 \/ _getSize T = 16 \/ _getSize T = 32 \/ _getSize T = 64))
  \/ (category T = Floating /\
       (_getSize T = 32 \/ _getSize T = 64 \/ _getSize T = 128)).
Proof.
  unfold supported, _getTypeKey, _getTypeKeyInt, _getTypeKeyFloat.
  intros H.
  destruct (category T) as [s | |]; [left; exists s | right | congruence];
    (split; [reflexivity |]);
    destruct (_getSize T) as [| p | p]; try congruence;
    do 8 (try (destruct p as [p | p |]; try congruence)); lia.
Qed.

(* ------------------------------------------------------------------ *)
(** ** The encoder: lengths and bytes *)

Lemma fill_loop_length le_input i n : length (fill_loop le_input i n) = n.
Proof. revert i; induction n as [| n IH]; intros i; simpl; [| rewrite IH]; reflexivity. Qed.

Lemma _fillArrayInt_length host T v :
  Z.of_nat (length (_fillArrayInt host T v)) = byteWidth T.
Proof.
  unfold _fillArrayInt. rewrite fill_loop_length, byteWidth_iterations.
  unfold byteWidth. destruct (_getSize_range T) as [[H0 _] _].
  rewrite Z2Nat.id; [reflexivity | apply Z.div_pos; lia].
Qed.

Lemma _floatToInt128_length host v :
  Z.of_nat (length (_floatToInt128 host v)) = 16.
Proof.
  unfold _floatToInt128. rewrite length_app, Nat2Z.inj_add.
  rewrite !_fillArrayInt_length. reflexivity.
Qed.

(** An encoding is empty or as wide as its type. *)
Lemma _fillArray_length host T v :
  _fillArray host T v = [] \/
  Z.of_nat (length (_fillArray host T v)) = byteWidth T.
Proof.
  unfold _fillArray, _fillArrayFloat, _floatToInt.
  destruct (category T); [right; apply _fillArrayInt_length | | left; reflexivity].
  unfold byteWidth.
  destruct (_getSize T) as [| p | p]; try (left; reflexivity);
    do 8 (try (destruct p as [p | p |]; try (left; reflexivity)));
    right; first [apply _fillArrayInt_length | apply _floatToInt128_length].
Qed.

Lemma _fillArray_supported_length host T v :
  supported T -> Z.of_nat (length (_fillArray host T v)) = byteWidth T /\ 0 < byteWidth T.
Proof.
  intros HT. unfold byteWidth.
  destruct (supported_sizes T HT) as [(s & Hc & Hs) | (Hc & Hs)];
    unfold _fillArray, _fillArrayFloat, _floatToInt; rewrite Hc.
  - rewrite _fillArrayInt_length. unfold byteWidth.
    destruct Hs as [-> | [-> | [-> | ->]]]; split; reflexivity.
  - destruct Hs as [-> | [-> | ->]];
      rewrite ?_fillArrayInt_length, ?_floatToInt128_length; split; reflexivity.
Qed.

Lemma fill_loop_bytes_of z i n :
  0 <= i -> fill_loop z i n = bytes_of n (Z.shiftr z i).
Proof.
  revert i. induction n as [| n IH]; intros i Hi; simpl; [reflexivity |].
  unfold uchar. f_equal.
  rewrite IH by lia. rewrite Z.shiftr_shiftr by lia. reflexivity.
Qed.

Lemma shiftr_mod_pow2 z w k :
  0 <= k <= w -> Z.shiftr (z mod 2 ^ w) k = Z.shiftr z k mod 2 ^ (w - k).
Proof.
  intros Hk. apply Z.bits_inj'. intros i Hi.
  rewrite Z.shiftr_spec by lia.
  destruct (Z.ltb_spec i (w - k)) as [Hl | Hh].
  - rewrite !Z.mod_pow2_bits_low by lia. rewrite Z.shiftr_spec by lia. reflexivity.
  - rewrite !Z.mod_pow2_bits_high by lia. reflexivity.
Qed.

(** Only the low [8 * n] bits of a value reach its first [n] bytes. *)
Lemma bytes_of_mod n w z :
  8 * Z.of_nat n <= w -> bytes_of n (z mod 2 ^ w) = bytes_of n z.
Proof.
  revert w z. induction n as [| n IH]; intros w z Hw; simpl; [reflexivity |].
  f_equal.
  - replace w with (8 + (w - 8)) by lia.
    rewrite Z.pow_add_r by lia.
    rewrite Z.rem_mul_r by lia.
    rewrite Z.mul_comm, Z.mod_add by lia. apply Z.mod_mod. lia.
  - rewrite <- (IH (w - 8) (Z.shiftr z 8)) by lia. f_equal.
    apply shiftr_mod_pow2. lia.
Qed.

(** On a little-endian host the count prefix is the four low-order bytes
    of the count, least significant first. *)
Lemma _fillArrayInt_uint32 z :
  _fillArrayInt LITTLE_ENDIAN uint32_t z = bytes_of 4 z.
Proof.
  unfold _fillArrayInt.
  change (_getSize uint32_t) with 32.
  change (Z.to_nat ((32 + 7) / 8)) with 4%nat.
  rewrite fill_loop_bytes_of by lia. rewrite Z.shiftr_0_r.
  unfold static_cast, htole, wrap_unsigned. simpl category. cbv iota.
  change (bits uint32_t) with 32.
  rewrite !bytes_of_mod by lia. reflexivity.
Qed.

Lemma of_bytes_bytes_of n z :
  of_bytes (bytes_of n z) = z mod 2 ^ (8 * Z.of_nat n).
Proof.
  revert z. induction n as [| n IH]; intros z.
  - simpl. rewrite Z.mod_1_r. reflexivity.
  - cbn [bytes_of of_bytes]. rewrite IH.
    apply Z.bits_inj'. intros i Hi.
    rewrite Z.lor_spec, Z.shiftl_spec by lia.
    destruct (Z.ltb_spec i 8) as [Hlt | Hge].
    + rewrite (Z.testbit_neg_r _ (i - 8)) by lia. rewrite orb_false_r.
      rewrite !Z.mod_pow2_bits_low by lia. reflexivity.
    + rewrite (Z.mod_pow2_bits_high _ 8 i) by lia. simpl.
      destruct (Z.ltb_spec (i - 8) (8 * Z.of_nat n)) as [Hl | Hh].
      * rewrite !Z.mod_pow2_bits_low by lia.
        rewrite Z.shiftr_spec by lia. f_equal. lia.
      * rewrite !Z.mod_pow2_bits_high by lia. reflexivity.
Qed.

(* ------------------------------------------------------------------ *)
(** ** Scalar members *)

(** C3, as the specification words it, fails: the member that results from
    encoding the [uint16_t] value [0x1234] is not the tag [UINT16] with the
    bytes [02 00 00 00 34 12]. *)
Lemma uint16_0x1234_prefix_is_not_02 :
  streamOut LITTLE_ENDIAN uint16_t (NONE, []) 0x1234
  <> (UINT16, [0x02; 0x00; 0x00; 0x00; 0x34; 0x12]).
Proof. vm_compute. discriminate. Qed.

(** C3, amended: on a little-endian host, encoding the [uint16_t] value
    [0x1234] into any member leaves it with the tag [UINT16] and exactly
    the bytes [01 00 00 00 34 12]: the count prefix of a scalar is 1. *)
Theorem streamOut_uint16_0x1234 (k : SerializedMember) :
  streamOut LITTLE_ENDIAN uint16_t k 0x1234
  = (UINT16, [0x01; 0x00; 0x00; 0x00; 0x34; 0x12]).
Proof. reflexivity. Qed.

(** On a big-endian host [htoleN] swaps the bytes of the value before the
    shifts take them out least significant first, so the buffer comes out
    most significant byte first. *)
Example streamOut_big_endian_host (k : SerializedMember) :
  streamOut BIG_ENDIAN uint16_t k 0x1234
  = (UINT16, [0x00; 0x00; 0x00; 0x01; 0x12; 0x34]).
Proof. reflexivity. Qed.

(** X24: for every supported scalar type [T] and every value [v], the
    buffer stored by the scalar encoder has length [4 + byteWidth T], on
    either host, and on a little-endian host its first four bytes read as
    a little-endian u32 are 1. *)
Theorem streamOut_scalar_layout (T : CType) (k : SerializedMember) (v : Z) :
  supported T ->
  (forall host,
     Z.of_nat (length (snd (streamOut host T k v))) = 4 + byteWidth T)
  /\ le_u32 (snd (streamOut LITTLE_ENDIAN T k v)) = 1.
Proof.
  intros HT. split.
  - intros host. unfold streamOut.
    destruct (_fillArray_supported_length host T v HT) as [Hlen Hpos].
    rewrite Hlen. destruct (Z.eqb_spec (byteWidth T) 0) as [E | _]; [lia |].
    cbn [snd]. unfold _setSize.
    rewrite length_app, Nat2Z.inj_add, _fillArrayInt_length, Hlen.
    reflexivity.
  - unfold streamOut.
    destruct (_fillArray_supported_length LITTLE_ENDIAN T v HT) as [Hlen Hpos].
    rewrite Hlen. destruct (Z.eqb_spec (byteWidth T) 0) as [E | _]; [lia |].
    cbn [snd]. unfold _setSize, le_u32.
    rewrite _fillArrayInt_uint32. reflexivity.
Qed.

Lemma streamOut_scalar_layout_witness :
  supported int32_t /\
  ((forall host,
      Z.of_nat (length (snd (streamOut host int32_t (NONE, []) (-7)))) = 4 + byteWidth int32_t)
   /\ le_u32 (snd (streamOut LITTLE_ENDIAN int32_t (NONE, []) (-7))) = 1).
Proof.
  split.
  - unfold supported. vm_compute. discriminate.
  - apply (streamOut_scalar_layout int32_t (NONE, []) (-7)).
    unfold supported. vm_compute. discriminate.
Defined.

(** C6: when the tag stored in a member differs from the tag of the
    requested element type, decoding leaves the destination as it was,
    for a scalar, a fixed array and a vector destination. *)
Theorem streamIn_tag_mismatch (host : ByteOrder) (T : CType) (k : SerializedMember) :
  fst k <> _getTypeKey T ->
  (forall v : Z, streamIn host T k v = Done v)
  /\ (forall v : list Z, streamIn_array host T k v = Done v)
  /\ (forall v : list Z, streamIn_vector host T k v = Done v).
Proof.
  intros Hne.
  unfold streamIn, streamIn_array, streamIn_vector.
  rewrite bool_decide_eq_false_2 by exact Hne.
  repeat split; reflexivity.
Qed.

Lemma streamIn_tag_mismatch_witness :
  fst (UINT8, [1; 0; 0; 0; 7]) <> _getTypeKey uint16_t
  /\ ((forall v : Z, streamIn LITTLE_ENDIAN uint16_t (UINT8, [1; 0; 0; 0; 7]) v = Done v)
      /\ (forall v : list Z,
            streamIn_array LITTLE_ENDIAN uint16_t (UINT8, [1; 0; 0; 0; 7]) v = Done v)
      /\ (forall v : list Z,
            streamIn_vector LITTLE_ENDIAN uint16_t (UINT8, [1; 0; 0; 0; 7]) v = Done v)).
Proof.
  split.
  - vm_compute. discriminate.
  - apply (streamIn_tag_mismatch LITTLE_ENDIAN uint16_t (UINT8, [1; 0; 0; 0; 7])).
    vm_compute. discriminate.
Defined.

(* ------------------------------------------------------------------ *)
(** ** Sequence members: encoding *)

Lemma length_eqb_0 (e : ByteVec) :
  (Z.of_nat (length e) =? 0) = bool_decide (e = []).
Proof.
  destruct e as [| b e]; [reflexivity |].
  rewrite bool_decide_eq_false_2 by discriminate.
  apply Z.eqb_neq. simpl length. lia.
Qed.

Lemma uint32_sub_l a b : uint32 (uint32 a - b) = uint32 (a - b).
Proof. unfold uint32. apply Zminus_mod_idemp_l. Qed.

(** What the loop of [fillOutputVector] leaves in [t] and in [size]. *)
Lemma fillOutputVector_loop_spec host T s : forall size t,
  snd (fillOutputVector_loop host T s size t) = t ++ concat (encoded host T s)
  /\ uint32 (fst (fillOutputVector_loop host T s size t))
     = uint32 (size - (Z.of_nat (length s) - Z.of_nat (length (encoded host T s)))).
Proof.
  unfold encoded.
  induction s as [| x s IH]; intros size t.
  - simpl. rewrite app_nil_r. split; [reflexivity | f_equal; lia].
  - cbn [fillOutputVector_loop map]. rewrite length_eqb_0.
    case_bool_decide as E.
    + rewrite filter_cons_False by (intros H; apply H, E).
      destruct (IH (uint32 (size - 1)) t) as [IHt IHs]. split; [exact IHt |].
      rewrite IHs, uint32_sub_l. f_equal. simpl length. lia.
    + rewrite filter_cons_True by exact E.
      destruct (IH size (t ++ _fillArray host T x)) as [IHt IHs]. split.
      * rewrite IHt. simpl. rewrite <- app_assoc. reflexivity.
      * rewrite IHs. f_equal. simpl length. lia.
Qed.

Lemma encoded_widths host T s :
  Forall (fun e : ByteVec => Z.of_nat (length e) = byteWidth T) (encoded host T s).
Proof.
  unfold encoded. apply Forall_forall. intros e He.
  apply list_elem_of_filter in He as [Hne Hin].
  apply list_elem_of_fmap in Hin as (x & -> & _).
  destruct (_fillArray_length host T x) as [E | E]; [contradiction | exact E].
Qed.

Lemma concat_length_uniform (w : Z) (l : list ByteVec) :
  Forall (fun e : ByteVec => Z.of_nat (length e) = w) l ->
  Z.of_nat (length (concat l)) = Z.of_nat (length l) * w.
Proof.
  induction 1 as [| e l He _ IH]; simpl; [reflexivity |].
  rewrite length_app, Nat2Z.inj_add, IH, He. lia.
Qed.

(** X25: for every input sequence [s] of element type [T], on a
    little-endian host, the buffer built by [fillOutputVector] is the four
    little-endian bytes of [count], followed by the encodings of the
    elements whose encoding is not empty, in input order, where [count] is
    the number of those elements; each of them takes [byteWidth T] bytes,
    the buffer is [4 + count * byteWidth T] bytes long, and its prefix read
    as a little-endian u32 is [count] (modulo [2 ^ 32], the range of a
    four-byte count). *)
Theorem fillOutputVector_layout (T : CType) (s : list Z) :
  let enc := encoded LITTLE_ENDIAN T s in
  let count := Z.of_nat (length enc) in
  fillOutputVector LITTLE_ENDIAN T s = bytes_of 4 count ++ concat enc
  /\ Forall (fun e : ByteVec => Z.of_nat (length e) = byteWidth T) enc
  /\ Z.of_nat (length (fillOutputVector LITTLE_ENDIAN T s)) = 4 + count * byteWidth T
  /\ le_u32 (fillOutputVector LITTLE_ENDIAN T s) = count mod 2 ^ 32.
Proof.
  intros enc count.
  assert (Hbuf : fillOutputVector LITTLE_ENDIAN T s = bytes_of 4 count ++ concat enc).
  { unfold fillOutputVector, _setSize.
    destruct (fillOutputVector_loop_spec LITTLE_ENDIAN T s
                (uint32 (Z.of_nat (length s))) []) as [Ht Hs].
    rewrite Ht, Hs, uint32_sub_l, _fillArrayInt_uint32.
    unfold uint32. rewrite (bytes_of_mod 4 32) by lia.
    replace (Z.of_nat (length s) -
             (Z.of_nat (length s) - Z.of_nat (length (encoded LITTLE_ENDIAN T s))))
      with count by (subst count enc; lia).
    reflexivity. }
  pose proof (encoded_widths LITTLE_ENDIAN T s) as Hw.
  repeat split.
  - exact Hbuf.
  - exact Hw.
  - rewrite Hbuf, length_app, Nat2Z.inj_add.
    rewrite (concat_length_uniform (byteWidth T)) by exact Hw.
    reflexivity.
  - rewrite Hbuf. unfold le_u32.
    change (firstn 4 (bytes_of 4 count ++ concat enc))
      with (bytes_of 4 count).
    apply (of_bytes_bytes_of 4).
Qed.

(** Scenario B of the specification: the [uint8_t] sequence [{1,2,3}]. *)
Example fillOutputVector_uint8_123 :
  streamOut_array LITTLE_ENDIAN uint8_t (NONE, []) [1; 2; 3]
  = (UINT8, [0x03; 0x00; 0x00; 0x00; 0x01; 0x02; 0x03]).
Proof. reflexivity. Qed.

(* ------------------------------------------------------------------ *)
(** ** The decoder *)

(** The loop of [_readArrayInt] runs once per bit and ors the whole byte
    [input.at(i/8)], shifted by [i], at every one of them: the bits of a
    byte are smeared over the seven positions above each. *)
Example _readArrayInt_smears :
  _readArrayInt LITTLE_ENDIAN uint16_t [0x34; 0x12] = 0xFFFC.
Proof. reflexivity. Qed.

(** C1, on the code: the scalar round trip fails.  The [uint8_t] value 1
    is encoded as the byte [01] and decoded as 255 on either host, and for
    each of the eleven supported scalar types the representable value 1
    does not decode back to 1. *)
Theorem readArray_fillArray_one (host : ByteOrder) :
  _fillArray host uint8_t 1 = [0x01]
  /\ _readArray host uint8_t (_fillArray host uint8_t 1) = 255
  /\ Forall (fun T => supported T /\ representable T 1
                      /\ _readArray host T (_fillArray host T 1) <> 1)
            scalar_types.
Proof.
  split; [destruct host; reflexivity |].
  split; [destruct host; reflexivity |].
  unfold scalar_types.
  repeat (apply Forall_cons; split;
          [ split; [unfold supported; vm_compute; discriminate |];
            split; [unfold representable, bits, CHAR_BIT; simpl; lia |];
            destruct host; vm_compute; discriminate
          | ]).
  constructor.
Qed.

(** The scalar path of [operator>>] checks the length of the buffer before
    it takes the payload out of it, and never reads out of bounds. *)
Lemma streamIn_in_bounds host T k v :
  exists r, streamIn host T k v = Done r.
Proof.
  unfold streamIn.
  destruct (negb (bool_decide (k.1 = _getTypeKey T))); simpl; [eauto |].
  destruct (Z.ltb_spec (Z.of_nat (length k.2)) (_getSize T / 8 + 4)) as [Hlt | Hge];
    [eauto |].
  unfold range.
  destruct (_getSize_range T) as [[H0 _] _].
  assert (0 <= _getSize T / 8) by (apply Z.div_pos; lia).
  replace (0 <=? 4) with true by reflexivity.
  replace (4 <=? 4 + _getSize T / 8) with true by (symmetry; apply Z.leb_le; lia).
  replace (4 + _getSize T / 8 <=? Z.of_nat (length k.2)) with true
    by (symmetry; apply Z.leb_le; lia).
  simpl. eauto.
Qed.

(** C5, on the code: the buffer [01 00 00 00 07] carries the count 1 and
    one [uint8_t] element, so its length passes the check the
    specification describes; [readByteVec] reads the count as 255 (the
    smeared prefix), fails its own check and writes nothing, into an array
    as into a vector. *)
Theorem readByteVec_count_one (host : ByteOrder) :
  le_u32 [1; 0; 0; 0; 7] = 1
  /\ 4 + 1 * byteWidth uint8_t <= Z.of_nat (length [1; 0; 0; 0; 7])
  /\ _getSize_ByteVec LITTLE_ENDIAN [1; 0; 0; 0; 7] = Done 255
  /\ readByteVec host uint8_t [1; 0; 0; 0; 7] 0 = Done []
  /\ streamIn_vector host uint8_t (UINT8, [1; 0; 0; 0; 7]) [] = Done []
  /\ streamIn_array host uint8_t (UINT8, [1; 0; 0; 0; 7]) [0] = Done [0].
Proof.
  split; [reflexivity |].
  split; [vm_compute; discriminate |].
  split; [reflexivity |].
  destruct host; repeat split; reflexivity.
Qed.

(** The length check of [readByteVec] is computed in [uint32_t]: a count
    of [2 ^ 31] two-byte elements wraps it to 4, a four-byte buffer passes
    it, and the first element is read past the end. *)
Example readByteVec_check_wraps :
  readByteVec LITTLE_ENDIAN uint16_t [0; 0; 0; 0x80] 3 = Fault OutOfBounds.
Proof. reflexivity. Qed.

(** [readByteVec] takes the count prefix out of the buffer before any
    check of its length. *)
Lemma readByteVec_short host T input outsize :
  (length input < 4)%nat -> readByteVec host T input outsize = Fault OutOfBounds.
Proof.
  intros Hlen. unfold readByteVec, _getSize_ByteVec, range.
  replace (4 <=? Z.of_nat (length input)) with false
    by (symmetry; apply Z.leb_gt; lia).
  reflexivity.
Qed.

(** C9, on the code: decoding a sequence out of a member whose tag
    matches and whose buffer is empty, or holds three bytes, reads the
    count prefix past the end of the buffer, for a vector and for an array
    destination. *)
Theorem streamIn_sequence_short_buffer (host : ByteOrder) (T : CType) (v : list Z) :
  streamIn_vector host T (_getTypeKey T, []) v = Fault OutOfBounds
  /\ streamIn_array host T (_getTypeKey T, []) v = Fault OutOfBounds
  /\ streamIn_vector host T (_getTypeKey T, [0; 0; 0]) v = Fault OutOfBounds
  /\ streamIn_array host T (_getTypeKey T, [0; 0; 0]) v = Fault OutOfBounds.
Proof.
  unfold streamIn_vector, streamIn_array. cbn [fst snd].
  rewrite bool_decide_eq_true_2 by reflexivity. cbn [negb].
  rewrite !readByteVec_short by (simpl; lia).
  repeat split; reflexivity.
Qed.

(* ------------------------------------------------------------------ *)
(** ** The factory *)

Lemma virtual_create_fresh (self : Object) (h : gmap N Object) :
  (virtual_create self h).1 <> NULL /\ h !! (virtual_create self h).1 = None.
Proof.
  unfold virtual_create. cbn [fst].
  pose proof (is_fresh ({[NULL]} ∪ dom h)) as Hfresh.
  split.
  - intros E. apply Hfresh, elem_of_union_l, elem_of_singleton. exact E.
  - apply not_elem_of_dom. set_solver.
Qed.

(** C10: [add] with a null prototype leaves the registry, and the whole
    state, as it was: no entry is created or replaced. *)
Theorem add_NULL (cName : string) (st : State) :
  add cName NULL st = st.
Proof. reflexivity. Qed.

(** C8: [create] of an unregistered name returns [NULL] and produces no
    instance, the state is as before; [create] of a name registered to a
    live prototype returns a non-null address that held no object, now
    holding a blank object of the concrete type of the prototype, every
    other object and the registry being as before. *)
Theorem create_spec (cName : string) (st : State) :
  match _serializables st !! cName with
  | None => create cName st = Done (NULL, st)
  | Some p =>
      match heap st !! p with
      | Some self =>
          exists q : ptr,
            q <> NULL /\ heap st !! q = None /\ q <> p
            /\ create cName st
               = Done (q, {| heap := <[q := blank self]> (heap st);
                             _serializables := _serializables st |})
            /\ dynamic_type (blank self) = dynamic_type self
      | None => create cName st = Fault DanglingPointer
      end
  end.
Proof.
  unfold create.
  destruct (_serializables st !! cName) as [p |]; [| reflexivity].
  destruct (heap st !! p) as [self |] eqn:Hp; [| reflexivity].
  destruct (virtual_create_fresh self (heap st)) as [Hnull Hnew].
  exists (virtual_create self (heap st)).1.
  repeat split; try assumption.
  intros E. rewrite E in Hnew. congruence.
Qed.

(** Scenario D of the specification. *)
Example create_Foo_Bar :
  let protoFoo := {| dynamic_type := "Foo"; _members := ∅ |} in
  let st := add "Foo" 1%N {| heap := {[ 1%N := protoFoo ]}; _serializables := ∅ |} in
  (exists q st', create "Foo" st = Done (q, st')
                 /\ dynamic_type <$> heap st' !! q = Some "Foo")
  /\ create "Bar" st = Done (NULL, st).
Proof.
  split; [| reflexivity].
  eexists _, _. split; [reflexivity |]. vm_compute. reflexivity.
Qed.

(** The prototype rejected by a second [add] under the same name is still
    on the heap after the call. *)
Lemma add_twice_second_not_destroyed :
  let protoFoo := {| dynamic_type := "Foo"; _members := ∅ |} in
  let protoBar := {| dynamic_type := "Bar"; _members := ∅ |} in
  let st := {| heap := {[ 1%N := protoFoo; 2%N := protoBar ]}; _serializables := ∅ |} in
  heap (add "Foo" 2%N (add "Foo" 1%N st)) !! 2%N <> None.
Proof. vm_compute. discriminate. Qed.

(** What two [add] calls under one name do, when [cName] is not
    registered yet and [p1], [p2] are distinct non-null live prototypes:
    the registry holds [p1] under [cName], the second call changes
    nothing at all, and whatever the heap becomes later, as long as [p1]
    is live, [create cName] yields a new instance of the concrete type of
    [p1]. *)
Theorem add_twice_first_wins (cName : string) (p1 p2 : ptr) (o1 o2 : Object) (st : State) :
  p1 <> NULL -> p2 <> NULL -> p1 <> p2 ->
  _serializables st !! cName = None ->
  heap st !! p1 = Some o1 -> heap st !! p2 = Some o2 ->
  let st1 := add cName p1 st in
  let st2 := add cName p2 st1 in
  _serializables st2 !! cName = Some p1
  /\ st2 = st1
  /\ heap st2 !! p2 = Some o2
  /\ (forall h, h !! p1 = Some o1 ->
        exists q st3,
          create cName {| heap := h; _serializables := _serializables st2 |} = Done (q, st3)
          /\ q <> NULL /\ h !! q = None
          /\ dynamic_type <$> heap st3 !! q = Some (dynamic_type o1)
          /\ _serializables st3 = _serializables st2).
Proof.
  intros Hp1 Hp2 Hne Hfree H1 H2 st1 st2.
  assert (E1 : st1 = {| heap := heap st;
                        _serializables := <[cName := p1]> (_serializables st) |}).
  { subst st1. unfold add.
    rewrite bool_decide_eq_false_2 by exact Hp1. rewrite Hfree. reflexivity. }
  assert (L1 : _serializables st1 !! cName = Some p1).
  { rewrite E1. cbn [_serializables]. apply lookup_insert_eq. }
  assert (E2 : st2 = st1).
  { subst st2. unfold add.
    rewrite bool_decide_eq_false_2 by exact Hp2. rewrite L1. reflexivity. }
  rewrite E2. repeat split.
  - exact L1.
  - rewrite E1. exact H2.
  - intros h Hh. unfold create. cbn [heap _serializables].
    rewrite L1, Hh.
    destruct (virtual_create_fresh o1 h) as [Hnull Hnew].
    eexists _, _. split; [reflexivity |].
    split; [exact Hnull |]. split; [exact Hnew |].
    split; [| reflexivity].
    unfold virtual_create. cbn [fst snd heap].
    rewrite lookup_insert_eq. reflexivity.
Qed.

Lemma add_twice_first_wins_witness :
  let protoFoo := {| dynamic_type := "Foo"; _members := ∅ |} in
  let protoBar := {| dynamic_type := "Bar"; _members := ∅ |} in
  let st := {| heap := {[ 1%N := protoFoo; 2%N := protoBar ]}; _serializables := ∅ |} in
  let st1 := add "Foo" 1%N st in
  let st2 := add "Foo" 2%N st1 in
  _serializables st2 !! "Foo" = Some 1%N
  /\ st2 = st1
  /\ heap st2 !! 2%N = Some protoBar
  /\ (forall h, h !! 1%N = Some protoFoo ->
        exists q st3,
          create "Foo" {| heap := h; _serializables := _serializables st2 |} = Done (q, st3)
          /\ q <> NULL /\ h !! q = None
          /\ dynamic_type <$> heap st3 !! q = Some (dynamic_type protoFoo)
          /\ _serializables st3 = _serializables st2).
Proof.
  intros protoFoo protoBar st.
  apply (add_twice_first_wins "Foo" 1%N 2%N protoFoo protoBar st).
  - vm_compute. discriminate.
  - vm_compute. discriminate.
  - vm_compute. discriminate.
  - reflexivity.
  - reflexivity.
  - reflexivity.
Defined.

(** The destructor deletes the prototypes the registry holds and no other
    object: one that [add] rejected outlives the registry. *)
Lemma Factory_dtor_spares (st st' : State) (p : ptr) :
  (forall n, _serializables st !! n <> Some p) ->
  Factory_dtor st = Done st' ->
  heap st' !! p = heap st !! p.
Proof.
  unfold Factory_dtor.
  set (f := fun (_ : string) (q : N) (acc : outcome (gmap N Object)) =>
              h ← acc; delete_object q h).
  intros Hnot.
  assert (Hfold : forall h', map_fold f (Done (heap st)) (_serializables st) = Done h' ->
                             h' !! p = heap st !! p).
  { revert Hnot.
    apply (map_fold_weak_ind
             (fun r m => (forall n, m !! n <> Some p) ->
                         forall h', r = Done h' -> h' !! p = heap st !! p)).
    - intros _ h' [= <-]. reflexivity.
    - intros i q m r Hi IH Hm h' Hr.
      assert (Hqp : q <> p).
      { intros ->. apply (Hm i). apply lookup_insert_eq. }
      assert (Hm' : forall n, m !! n <> Some p).
      { intros n Hn. apply (Hm n).
        destruct (decide (i = n)) as [-> | Hin]; [congruence |].
        rewrite lookup_insert_ne by exact Hin. exact Hn. }
      unfold f in Hr. destruct r as [h0 | e]; [| discriminate].
      cbn in Hr. unfold delete_object in Hr.
      case_bool_decide; [injection Hr as <-; eauto |].
      destruct (h0 !! q); [| discriminate].
      injection Hr as <-. rewrite lookup_delete_ne by exact Hqp. eauto. }
  destruct (map_fold f (Done (heap st)) (_serializables st)) as [h |] eqn:E;
    [| discriminate].
  cbn. intros [= <-]. cbn [heap]. apply Hfold. reflexivity.
Qed.

(* ------------------------------------------------------------------ *)
(** ** More on sizes and tags *)

Lemma _getSize_mod32 (T : CType) : _getSize T = 8 * (sizeof T mod 32).
Proof.
  unfold _getSize, uchar, CHAR_BIT.
  change (2 ^ 8) with (8 * 32).
  rewrite Z.mul_mod_distr_l by lia.
  replace ((8 * (sizeof T mod 32)) mod 8) with 0
    by (rewrite Z.mul_comm, Z.mod_mul; lia).
  reflexivity.
Qed.

(** X1: [_getSize] is computed in [uchar]: it is eight times the byte size
    modulo 32, always a multiple of 8 below 256; its rounding branch is
    never taken, and a type of 32 bytes has size 0. *)
Theorem getSize_closed_form (T : CType) :
  _getSize T = 8 * (sizeof T mod 32).
Proof.
  unfold _getSize, uchar, CHAR_BIT.
  change (2 ^ 8) with (8 * 32).
  rewrite Z.mul_mod_distr_l by lia.
  replace ((8 * (sizeof T mod 32)) mod 8) with 0
    by (rewrite Z.mul_comm, Z.mod_mul; lia).
  reflexivity.
Qed.

Lemma _getTypeKey_of_sizes T :
  supported T ->
  (exists s, category T = Integral s /\
     ((_getSize T = 8 /\ _getTypeKey T = (if s then INT8 else UINT8))
      \/ (_getSize T = 16 /\ _getTypeKey T = (if s then INT16 else UINT16))
      \/ (_getSize T = 32 /\ _getTypeKey T = (if s then INT32 else UINT32))
      \/ (_getSize T = 64 /\ _getTypeKey T = (if s then INT64 else UINT64))))
  \/ (category T = Floating /\
       ((_getSize T = 32 /\ _getTypeKey T = FLT32)
        \/ (_getSize T = 64 /\ _getTypeKey T = FLT64)
        \/ (_getSize T = 128 /\ _getTypeKey T = FLT128))).
Proof.
  intros HT.
  destruct (supported_sizes T HT) as [(s & Hc & Hs) | (Hc & Hs)];
    [left; exists s | right]; (split; [exact Hc |]);
    unfold _getTypeKey, _getTypeKeyInt, _getTypeKeyFloat; rewrite Hc.
  - destruct Hs as [E | [E | [E | E]]]; rewrite E; tauto.
  - destruct Hs as [E | [E | E]]; rewrite E; tauto.
Qed.

(** X2: a tag other than [NONE] determines the kind of the type, its
    signedness and its size: two types with the same tag agree on all
    three. *)
Theorem getTypeKey_injective (T1 T2 : CType) :
  supported T1 ->
  _getTypeKey T1 = _getTypeKey T2 ->
  category T1 = category T2 /\ _getSize T1 = _getSize T2.
Proof.
  intros H1 E.
  assert (H2 : supported T2) by (unfold supported in *; congruence).
  destruct (_getTypeKey_of_sizes T1 H1) as [(s1 & Hc1 & Hs1) | (Hc1 & Hs1)];
    destruct (_getTypeKey_of_sizes T2 H2) as [(s2 & Hc2 & Hs2) | (Hc2 & Hs2)];
    rewrite Hc1, Hc2;
    repeat match goal with
           | H : _ \/ _ |- _ => destruct H as [H | H]
           | H : _ /\ _ |- _ => destruct H as [? H]
           end;
    try destruct s1; try destruct s2; try congruence; split; congruence.
Qed.

Lemma getTypeKey_injective_witness :
  supported int16_t
  /\ _getTypeKey int16_t = _getTypeKey {| category := Integral true; sizeof := 34 |}
  /\ category int16_t = category {| category := Integral true; sizeof := 34 |}
  /\ _getSize int16_t = _getSize {| category := Integral true; sizeof := 34 |}.
Proof.
  assert (H1 : supported int16_t) by (unfold supported; vm_compute; discriminate).
  assert (E : _getTypeKey int16_t
              = _getTypeKey {| category := Integral true; sizeof := 34 |})
    by reflexivity.
  split; [exact H1 |]. split; [exact E |].
  exact (getTypeKey_injective int16_t {| category := Integral true; sizeof := 34 |} H1 E).
Defined.

(* ------------------------------------------------------------------ *)
(** ** The byte order of the encoder *)

Lemma bytes_of_length n z : length (bytes_of n z) = n.
Proof. revert z; induction n as [| n IH]; intros z; simpl; [| rewrite IH]; reflexivity. Qed.

Lemma bytes_of_is_byte n z : Forall is_byte (bytes_of n z).
Proof.
  revert z; induction n as [| n IH]; intros z; simpl; constructor; [| apply IH].
  unfold is_byte. apply Z.mod_pos_bound. lia.
Qed.

Lemma bytes_of_app n m z :
  bytes_of (n + m) z = bytes_of n z ++ bytes_of m (Z.shiftr z (8 * Z.of_nat n)).
Proof.
  revert z. induction n as [| n IH]; intros z.
  - simpl. rewrite Z.shiftr_0_r. reflexivity.
  - cbn [Nat.add bytes_of app]. rewrite IH. f_equal. f_equal. f_equal.
    rewrite Z.shiftr_shiftr by lia. f_equal. lia.
Qed.

Lemma bytes_of_of_bytes bs :
  Forall is_byte bs -> bytes_of (length bs) (of_bytes bs) = bs.
Proof.
  induction 1 as [| b bs Hb _ IH]; [reflexivity |].
  cbn [length bytes_of of_bytes]. unfold is_byte in Hb.
  assert (Hlow : Z.lor b (Z.shiftl (of_bytes bs) 8) mod 2 ^ 8 = b).
  { apply Z.bits_inj'. intros i Hi.
    destruct (Z.ltb_spec i 8) as [Hlt | Hge].
    - rewrite Z.mod_pow2_bits_low by lia.
      rewrite Z.lor_spec, Z.shiftl_spec by lia.
      rewrite (Z.testbit_neg_r _ (i - 8)) by lia. apply orb_false_r.
    - rewrite Z.mod_pow2_bits_high by lia. symmetry.
      destruct (Z.eq_dec b 0) as [-> | Hnz]; [apply Z.bits_0 |].
      apply Z.bits_above_log2; [lia |].
      apply Z.log2_lt_pow2; [lia |].
      apply Z.lt_le_trans with (2 ^ 8); [lia |].
      apply Z.pow_le_mono_r; lia. }
  assert (Hhigh : Z.shiftr (Z.lor b (Z.shiftl (of_bytes bs) 8)) 8 = of_bytes bs).
  { rewrite Z.shiftr_lor, Z.shiftr_shiftl_l by lia.
    rewrite Z.sub_diag, Z.shiftl_0_r.
    rewrite (Z.shiftr_div_pow2 b) by lia. rewrite Z.div_small by lia.
    apply Z.lor_0_l. }
  rewrite Hlow, Hhigh, IH. reflexivity.
Qed.

Lemma wrap_signed_mod w z : 0 < w -> wrap_signed w z mod 2 ^ w = z mod 2 ^ w.
Proof.
  intros Hw. unfold wrap_signed.
  assert (0 < 2 ^ w) by (apply Z.pow_pos_nonneg; lia).
  rewrite Zminus_mod_idemp_l. f_equal. lia.
Qed.

(** A conversion to an integral type keeps the bytes below its width. *)
Lemma bytes_of_static_cast n T z :
  0 < bits T -> 8 * Z.of_nat n <= bits T ->
  bytes_of n (static_cast T z) = bytes_of n z.
Proof.
  intros Hpos Hn.
  rewrite <- (bytes_of_mod n (bits T) (static_cast T z)) by exact Hn.
  rewrite <- (bytes_of_mod n (bits T) z) by exact Hn.
  f_equal. unfold static_cast.
  destruct (category T) as [[|] | |]; try reflexivity.
  - apply wrap_signed_mod. exact Hpos.
  - unfold wrap_unsigned. apply Z.mod_mod.
    apply Z.pow_nonzero; lia.
Qed.

(** The bytes [_fillArrayInt] emits for an integral type of 8, 16, 32 or
    64 bits whose size is not truncated by [_getSize]. *)
Lemma _fillArrayInt_order host T v :
  bits T = _getSize T ->
  _getSize T = 8 \/ _getSize T = 16 \/ _getSize T = 32 \/ _getSize T = 64 ->
  _fillArrayInt host T v
  = match host with
    | LITTLE_ENDIAN => bytes_of (Z.to_nat (byteWidth T)) v
    | BIG_ENDIAN => rev (bytes_of (Z.to_nat (byteWidth T)) v)
    end.
Proof.
  intros Hbits Hs. unfold _fillArrayInt, byteWidth.
  assert (Hswap : forall (n : nat) w, w = 8 * Z.of_nat n ->
            bytes_of n (bswap w (wrap_unsigned w v)) = rev (bytes_of n v)).
  { intros n w ->. unfold bswap, wrap_unsigned.
    replace (Z.to_nat (8 * Z.of_nat n / 8)) with n
      by (rewrite Z.mul_comm, Z.div_mul by lia; lia).
    rewrite bytes_of_mod by lia.
    pose proof (bytes_of_of_bytes (rev (bytes_of n v))) as Hb.
    rewrite length_rev, bytes_of_length in Hb.
    apply Hb. apply Forall_rev, bytes_of_is_byte. }
  destruct Hs as [E | [E | [E | E]]]; rewrite E in *; cbv iota;
    rewrite fill_loop_bytes_of by lia; rewrite Z.shiftr_0_r;
    match goal with
    | |- context [Z.to_nat ((?w + 7) / 8)] =>
        let n := eval vm_compute in (Z.to_nat ((w + 7) / 8)) in
        change (Z.to_nat ((w + 7) / 8)) with n;
        change (Z.to_nat (w / 8)) with n
    end.
  - destruct host; reflexivity.
  - rewrite bytes_of_static_cast by lia.
    destruct host; unfold htole; [apply bytes_of_mod; lia | apply (Hswap 2%nat); lia].
  - rewrite bytes_of_static_cast by lia.
    destruct host; unfold htole; [apply bytes_of_mod; lia | apply (Hswap 4%nat); lia].
  - rewrite bytes_of_static_cast by lia.
    destruct host; unfold htole; [apply bytes_of_mod; lia | apply (Hswap 8%nat); lia].
Qed.

Lemma _getSize_untruncated T : 0 < sizeof T < 32 -> bits T = _getSize T.
Proof.
  intros H. rewrite _getSize_mod32, Z.mod_small by lia. reflexivity.
Qed.

(** The bytes [_fillArray] emits for a supported type, on each host. *)
Lemma _fillArray_order host T v :
  supported T -> 0 < sizeof T < 32 ->
  _fillArray host T v
  = match host with
    | LITTLE_ENDIAN => bytes_of (Z.to_nat (byteWidth T)) v
    | BIG_ENDIAN => rev (bytes_of (Z.to_nat (byteWidth T)) v)
    end.
Proof.
  intros HT Hsz.
  destruct (supported_sizes T HT) as [(s & Hc & Hs) | (Hc & Hs)];
    unfold _fillArray; rewrite Hc.
  - apply _fillArrayInt_order; [apply _getSize_untruncated; exact Hsz | exact Hs].
  - unfold _fillArrayFloat, _floatToInt, byteWidth.
    destruct Hs as [E | [E | E]]; rewrite E; cbv iota.
    + rewrite _fillArrayInt_order by (vm_compute; tauto).
      change (Z.to_nat (byteWidth int32_t)) with 4%nat.
      change (Z.to_nat (32 / 8)) with 4%nat.
      rewrite bytes_of_static_cast by (vm_compute; first [reflexivity | discriminate]).
      reflexivity.
    + rewrite _fillArrayInt_order by (vm_compute; tauto).
      change (Z.to_nat (byteWidth int64_t)) with 8%nat.
      change (Z.to_nat (64 / 8)) with 8%nat.
      rewrite bytes_of_static_cast by (vm_compute; first [reflexivity | discriminate]).
      reflexivity.
    + unfold _floatToInt128, limbs_of.
      change (Z.to_nat (128 / 8)) with (8 + 8)%nat.
      rewrite (bytes_of_app 8 8 v).
      change (8 * Z.of_nat 8) with 64.
      assert (Hlo : bytes_of 8 (static_cast int64_t (v mod 2 ^ 64)) = bytes_of 8 v).
      { rewrite bytes_of_static_cast by (vm_compute; first [reflexivity | discriminate]).
        apply bytes_of_mod. lia. }
      assert (Hhi : bytes_of 8 (static_cast int64_t (Z.shiftr v 64 mod 2 ^ 64))
                    = bytes_of 8 (Z.shiftr v 64)).
      { rewrite bytes_of_static_cast by (vm_compute; first [reflexivity | discriminate]).
        apply bytes_of_mod. lia. }
      destruct host; cbn [fst snd];
        rewrite !_fillArrayInt_order by (vm_compute; tauto);
        change (Z.to_nat (byteWidth int64_t)) with 8%nat;
        rewrite Hlo, Hhi; [reflexivity | rewrite rev_app_distr; reflexivity].
Qed.

Lemma byteWidth_bits T : 8 * Z.of_nat (Z.to_nat (byteWidth T)) = _getSize T.
Proof.
  unfold byteWidth. destruct (_getSize_range T) as [[H0 _] Hm].
  rewrite Z2Nat.id by (apply Z.div_pos; lia).
  rewrite (Z.div_mod (_getSize T) 8) at 2 by lia. lia.
Qed.

(** X3: on a little-endian host the encoding of a value [v] of a supported
    type of 1 to 31 bytes is the [byteWidth T] low-order bytes of [v],
    least significant first (two's complement for a negative [v]): read
    back as a little-endian number it is [v] modulo [2 ^ _getSize T]. *)
Theorem fillArray_little_endian (T : CType) (v : Z) :
  supported T -> 0 < sizeof T < 32 ->
  _fillArray LITTLE_ENDIAN T v = bytes_of (Z.to_nat (byteWidth T)) v
  /\ of_bytes (_fillArray LITTLE_ENDIAN T v) = v mod 2 ^ _getSize T.
Proof.
  intros HT Hsz.
  rewrite (_fillArray_order LITTLE_ENDIAN T v HT Hsz).
  split; [reflexivity |].
  rewrite of_bytes_bytes_of, byteWidth_bits. reflexivity.
Qed.

Lemma fillArray_little_endian_witness :
  supported int16_t /\ 0 < sizeof int16_t < 32
  /\ _fillArray LITTLE_ENDIAN int16_t (-2) = bytes_of (Z.to_nat (byteWidth int16_t)) (-2)
  /\ of_bytes (_fillArray LITTLE_ENDIAN int16_t (-2)) = (-2) mod 2 ^ _getSize int16_t.
Proof.
  assert (H1 : supported int16_t) by (unfold supported; vm_compute; discriminate).
  assert (H2 : 0 < sizeof int16_t < 32) by (simpl; lia).
  split; [exact H1 |]. split; [exact H2 |].
  exact (fillArray_little_endian int16_t (-2) H1 H2).
Defined.

(** X4: on a big-endian host the same encoder emits those bytes most
    significant first: [htoleN] swaps the value and the shifts then take
    its bytes out from the low end, so the buffer is not little-endian. *)
Theorem fillArray_big_endian (T : CType) (v : Z) :
  supported T -> 0 < sizeof T < 32 ->
  _fillArray BIG_ENDIAN T v = rev (bytes_of (Z.to_nat (byteWidth T)) v)
  /\ _fillArray BIG_ENDIAN T v = rev (_fillArray LITTLE_ENDIAN T v).
Proof.
  intros HT Hsz.
  rewrite (_fillArray_order BIG_ENDIAN T v HT Hsz).
  rewrite (_fillArray_order LITTLE_ENDIAN T v HT Hsz).
  split; reflexivity.
Qed.

Lemma fillArray_big_endian_witness :
  supported uint32_t /\ 0 < sizeof uint32_t < 32
  /\ _fillArray BIG_ENDIAN uint32_t 0x01020304
     = rev (bytes_of (Z.to_nat (byteWidth uint32_t)) 0x01020304)
  /\ _fillArray BIG_ENDIAN uint32_t 0x01020304
     = rev (_fillArray LITTLE_ENDIAN uint32_t 0x01020304).
Proof.
  assert (H1 : supported uint32_t) by (unfold supported; vm_compute; discriminate).
  assert (H2 : 0 < sizeof uint32_t < 32) by (simpl; lia).
  split; [exact H1 |]. split; [exact H2 |].
  exact (fillArray_big_endian uint32_t 0x01020304 H1 H2).
Defined.

(* ------------------------------------------------------------------ *)
(** ** More on the decoder *)

Lemma static_cast_0 T : static_cast T 0 = 0.
Proof.
  unfold static_cast, wrap_signed, wrap_unsigned.
  destruct (category T) as [[|] | |]; try reflexivity.
  rewrite Z.add_0_l.
  destruct (Z.lt_trichotomy (bits T) 1) as [Hlt | [-> | Hgt]].
  - rewrite (Z.pow_neg_r 2 (bits T - 1)) by lia. rewrite Zmod_0_l. reflexivity.
  - reflexivity.
  - rewrite Z.mod_small; [lia |].
    split; [apply Z.pow_nonneg; lia |].
    apply Z.pow_lt_mono_r; lia.
Qed.

(** X5: a payload whose length is not [byteWidth T] decodes to zero, for
    every type and on either host. *)
Theorem readArray_wrong_length (host : ByteOrder) (T : CType) (input : ByteVec) :
  Z.of_nat (length input) <> byteWidth T ->
  _readArray host T input = 0.
Proof.
  intros Hlen. unfold byteWidth in Hlen.
  unfold _readArray, _readArrayInt, _readArrayFloat.
  destruct (Z.eqb_spec (_getSize T / 8) (Z.of_nat (length input))) as [E | _];
    [congruence |].
  destruct (category T); cbn [negb]; [apply static_cast_0 | reflexivity | reflexivity].
Qed.

Lemma readArray_wrong_length_witness :
  Z.of_nat (length [0x01; 0x02; 0x03]) <> byteWidth int16_t
  /\ _readArray LITTLE_ENDIAN int16_t [0x01; 0x02; 0x03] = 0.
Proof.
  assert (H : Z.of_nat (length [0x01; 0x02; 0x03]) <> byteWidth int16_t)
    by (vm_compute; discriminate).
  split; [exact H |].
  exact (readArray_wrong_length LITTLE_ENDIAN int16_t [0x01; 0x02; 0x03] H).
Defined.

Lemma byte_cases v : 0 <= v < 256 -> In v (map Z.of_nat (seq 0 256)).
Proof.
  intros Hv. apply in_map_iff. exists (Z.to_nat v).
  split; [lia | apply in_seq; lia].
Qed.

(** X6: for [uint8_t] the round trip returns [v] with every bit above its
    lowest set bit set as well, on either host; so only 0 and the eight
    values 128, 192, ..., 254, 255 come back as they went in. *)
Theorem readArray_fillArray_uint8 (host : ByteOrder) (v : Z) :
  representable uint8_t v ->
  _readArray host uint8_t (_fillArray host uint8_t v) = Z.lor v (- v) mod 2 ^ 8
  /\ (_readArray host uint8_t (_fillArray host uint8_t v) = v
      <-> In v [0; 128; 192; 224; 240; 248; 252; 254; 255]).
Proof.
  intros Hv.
  assert (Hin : In v (map Z.of_nat (seq 0 256))) by (apply byte_cases; exact Hv).
  set (ok := fun v : Z =>
               (_readArray host uint8_t (_fillArray host uint8_t v)
                =? Z.lor v (- v) mod 2 ^ 8)
               && Bool.eqb (_readArray host uint8_t (_fillArray host uint8_t v) =? v)
                           (existsb (Z.eqb v) [0; 128; 192; 224; 240; 248; 252; 254; 255])).
  assert (Hall : forallb ok (map Z.of_nat (seq 0 256)) = true)
    by (destruct host; vm_compute; reflexivity).
  pose proof (proj1 (forallb_forall ok _) Hall v Hin) as Hok.
  unfold ok in Hok. apply andb_prop in Hok as [H1 H2].
  apply Z.eqb_eq in H1. apply Bool.eqb_prop in H2.
  split; [exact H1 |].
  rewrite <- Z.eqb_eq, H2. rewrite existsb_exists.
  split.
  - intros (x & Hx & Ex). apply Z.eqb_eq in Ex. subst x. exact Hx.
  - intros Hx. exists v. split; [exact Hx | apply Z.eqb_refl].
Qed.

Lemma readArray_fillArray_uint8_witness :
  representable uint8_t 0x12
  /\ _readArray LITTLE_ENDIAN uint8_t (_fillArray LITTLE_ENDIAN uint8_t 0x12)
     = Z.lor 0x12 (- 0x12) mod 2 ^ 8
  /\ (_readArray LITTLE_ENDIAN uint8_t (_fillArray LITTLE_ENDIAN uint8_t 0x12) = 0x12
      <-> In 0x12 [0; 128; 192; 224; 240; 248; 252; 254; 255]).
Proof.
  assert (H : representable uint8_t 0x12)
    by (unfold representable, bits, CHAR_BIT; simpl; lia).
  split; [exact H |].
  exact (readArray_fillArray_uint8 LITTLE_ENDIAN 0x12 H).
Defined.

(* ------------------------------------------------------------------ *)
(** ** Scalar members: encode, then decode *)

Lemma range_middle (pre payload rest : ByteVec) :
  range (pre ++ payload ++ rest) (Z.of_nat (length pre))
        (Z.of_nat (length pre) + Z.of_nat (length payload))
  = Done payload.
Proof.
  unfold range. rewrite !length_app.
  replace (0 <=? Z.of_nat (length pre)) with true by (symmetry; apply Z.leb_le; lia).
  replace (Z.of_nat (length pre) <=? Z.of_nat (length pre) + Z.of_nat (length payload))
    with true by (symmetry; apply Z.leb_le; lia).
  replace (Z.of_nat (length pre) + Z.of_nat (length payload)
           <=? Z.of_nat (length pre + (length payload + length rest))%nat)
    with true by (symmetry; apply Z.leb_le; lia).
  cbn [andb]. f_equal.
  rewrite Nat2Z.id.
  replace (Z.to_nat (Z.of_nat (length pre) + Z.of_nat (length payload) - Z.of_nat (length pre)))
    with (length payload) by lia.
  rewrite drop_app_length, take_app_length. reflexivity.
Qed.

Lemma streamIn_payload host T (pre payload rest : ByteVec) (d : Z) :
  length pre = 4%nat ->
  Z.of_nat (length payload) = byteWidth T ->
  streamIn host T (_getTypeKey T, pre ++ payload ++ rest) d
  = Done (_readArray host T payload).
Proof.
  intros Hpre Hpay. unfold streamIn, byteWidth in *. cbn [fst snd].
  rewrite bool_decide_eq_true_2 by reflexivity. cbn [negb orb].
  rewrite !length_app.
  destruct (Z.ltb_spec (Z.of_nat (length pre + (length payload + length rest)))
                       (_getSize T / 8 + 4)) as [Hlt | _]; [lia |].
  pose proof (range_middle pre payload rest) as Hr.
  rewrite Hpre, Hpay in Hr. change (Z.of_nat 4) with 4 in Hr.
  rewrite Hr. reflexivity.
Qed.

Lemma streamIn_of_streamOut host T (k : SerializedMember) (v d : Z) :
  supported T ->
  streamIn host T (streamOut host T k v) d
  = Done (_readArray host T (_fillArray host T v)).
Proof.
  intros HT. unfold streamOut.
  destruct (_fillArray_supported_length host T v HT) as [Hlen Hpos].
  rewrite Hlen. destruct (Z.eqb_spec (byteWidth T) 0) as [E | _]; [lia |].
  unfold _setSize.
  rewrite <- (app_nil_r (_fillArray host T v)) at 1.
  apply streamIn_payload; [| exact Hlen].
  apply Nat2Z.inj. rewrite _fillArrayInt_length. reflexivity.
Qed.

(** X7: for a supported type, decoding a scalar out of the member it was
    just encoded into hands the payload of the encoder to the decoder: the
    result is [_readArray] of [_fillArray] of the value, whatever the
    member and the destination held before. *)
Theorem streamIn_streamOut (host : ByteOrder) (T : CType)
    (k : SerializedMember) (v d : Z) :
  supported T ->
  streamIn host T (streamOut host T k v) d
  = Done (_readArray host T (_fillArray host T v)).
Proof.
  intros HT. unfold streamOut.
  destruct (_fillArray_supported_length host T v HT) as [Hlen Hpos].
  rewrite Hlen. destruct (Z.eqb_spec (byteWidth T) 0) as [E | _]; [lia |].
  unfold _setSize.
  rewrite <- (app_nil_r (_fillArray host T v)) at 1.
  apply streamIn_payload; [| exact Hlen].
  apply Nat2Z.inj. rewrite _fillArrayInt_length. reflexivity.
Qed.

Lemma streamIn_streamOut_witness :
  supported uint8_t
  /\ streamIn LITTLE_ENDIAN uint8_t (streamOut LITTLE_ENDIAN uint8_t (NONE, []) 0xF0) 7
     = Done (_readArray LITTLE_ENDIAN uint8_t (_fillArray LITTLE_ENDIAN uint8_t 0xF0)).
Proof.
  assert (H : supported uint8_t) by (unfold supported; vm_compute; discriminate).
  split; [exact H |].
  exact (streamIn_streamOut LITTLE_ENDIAN uint8_t (NONE, []) 0xF0 7 H).
Defined.

(** X8: the scalar decode looks at the tag and at bytes 4 to
    [4 + byteWidth T] only: the count prefix is never inspected and any
    bytes after the first element are ignored, so a scalar can be decoded
    out of a sequence member of the same element type. *)
Theorem streamIn_reads_first_element (host : ByteOrder) (T : CType)
    (pre payload rest : ByteVec) (d : Z) :
  length pre = 4%nat ->
  Z.of_nat (length payload) = byteWidth T ->
  streamIn host T (_getTypeKey T, pre ++ payload ++ rest) d
  = Done (_readArray host T payload).
Proof.
  intros Hpre Hpay. unfold streamIn, byteWidth in *. cbn [fst snd].
  rewrite bool_decide_eq_true_2 by reflexivity. cbn [negb orb].
  rewrite !length_app.
  destruct (Z.ltb_spec (Z.of_nat (length pre + (length payload + length rest)))
                       (_getSize T / 8 + 4)) as [Hlt | _]; [lia |].
  pose proof (range_middle pre payload rest) as Hr.
  rewrite Hpre, Hpay in Hr. change (Z.of_nat 4) with 4 in Hr.
  rewrite Hr. reflexivity.
Qed.

Lemma streamIn_reads_first_element_witness :
  length [9; 9; 9; 9] = 4%nat
  /\ Z.of_nat (length [0xFF]) = byteWidth uint8_t
  /\ streamIn LITTLE_ENDIAN uint8_t (_getTypeKey uint8_t, [9; 9; 9; 9] ++ [0xFF] ++ [1; 2]) 0
     = Done (_readArray LITTLE_ENDIAN uint8_t [0xFF]).
Proof.
  assert (H1 : length [9; 9; 9; 9] = 4%nat) by reflexivity.
  assert (H2 : Z.of_nat (length [0xFF]) = byteWidth uint8_t) by reflexivity.
  split; [exact H1 |]. split; [exact H2 |].
  exact (streamIn_reads_first_element LITTLE_ENDIAN uint8_t
           [9; 9; 9; 9] [0xFF] [1; 2] 0 H1 H2).
Defined.

(** X9: the scalar decode never reads outside the buffer of the member:
    for every member, type and destination it returns. *)
Theorem streamIn_never_faults (host : ByteOrder) (T : CType)
    (k : SerializedMember) (v : Z) :
  streamIn host T k v = Done v
  \/ exists payload,
       range (snd k) 4 (4 + byteWidth T) = Done payload
       /\ streamIn host T k v = Done (_readArray host T payload).
Proof.
  unfold streamIn, byteWidth.
  destruct (negb (bool_decide (k.1 = _getTypeKey T))); cbn [orb]; [left; reflexivity |].
  destruct (Z.ltb_spec (Z.of_nat (length k.2)) (_getSize T / 8 + 4)) as [Hlt | Hge];
    [left; reflexivity |].
  right. unfold range.
  destruct (_getSize_range T) as [[H0 _] _].
  assert (0 <= _getSize T / 8) by (apply Z.div_pos; lia).
  replace (0 <=? 4) with true by reflexivity.
  replace (4 <=? 4 + _getSize T / 8) with true by (symmetry; apply Z.leb_le; lia).
  replace (4 + _getSize T / 8 <=? Z.of_nat (length k.2)) with true
    by (symmetry; apply Z.leb_le; lia).
  cbn [andb]. eexists. split; reflexivity.
Qed.

(* ------------------------------------------------------------------ *)
(** ** More on sequence members *)

Lemma _setSize_uint32 host t size size' :
  uint32 size = uint32 size' -> _setSize host t size = _setSize host t size'.
Proof. unfold _setSize. intros ->. reflexivity. Qed.

Lemma _fillArrayInt_uint32_0 host : _fillArrayInt host uint32_t 0 = [0; 0; 0; 0].
Proof. destruct host; reflexivity. Qed.

Lemma encoded_other host T s : category T = Other -> encoded host T s = [].
Proof.
  intros Hc. unfold encoded.
  induction s as [| x s IH]; [reflexivity |].
  cbn [map]. rewrite filter_cons_False; [exact IH |].
  unfold _fillArray. rewrite Hc. intros H. apply H. reflexivity.
Qed.

Lemma encoded_supported host T s :
  supported T -> encoded host T s = map (_fillArray host T) s.
Proof.
  intros HT. unfold encoded.
  induction s as [| x s IH]; [reflexivity |].
  cbn [map]. rewrite filter_cons_True; [rewrite IH; reflexivity |].
  destruct (_fillArray_supported_length host T x HT) as [Hlen Hpos].
  intros E. rewrite E in Hlen. simpl in Hlen. lia.
Qed.

(** X10: for an operand type that is neither integral nor floating,
    [operator<<] on a single value leaves the member as it was when the
    type is not an instance of a class template, or is an instance of one
    with four type parameters; for any other instance of a class template,
    such as [std::string], it reaches a [streamOut] that has no [return];
    and the array encode of elements of such a type overwrites the member
    with the tag [NONE] and a count of zero, whatever the elements and the
    member before. *)
Theorem streamOut_unsupported (host : ByteOrder) (T : CType)
    (k : SerializedMember) (v : Z) (s : list Z) :
  category T = Other ->
  operator_shl host T Plain k v = Done k
  /\ operator_shl host T ClassTemplate4 k v = Done k
  /\ operator_shl host T ClassTemplate k v = Fault MissingReturn
  /\ streamOut_array host T k s = (NONE, [0; 0; 0; 0]).
Proof.
  intros Hc.
  split; [unfold operator_shl, streamOut, _fillArray; rewrite Hc; reflexivity |].
  split; [reflexivity |]. split; [reflexivity |].
  unfold streamOut_array, fillOutputVector, _getTypeKey. rewrite Hc. f_equal.
  destruct (fillOutputVector_loop_spec host T s (uint32 (Z.of_nat (length s))) [])
    as [Ht Hs].
  rewrite Ht, (encoded_other host T s Hc). cbn [concat app].
  rewrite (_setSize_uint32 host [] _ 0).
  - unfold _setSize. change (uint32 0) with 0.
    rewrite _fillArrayInt_uint32_0. reflexivity.
  - rewrite Hs, uint32_sub_l, (encoded_other host T s Hc). f_equal.
    simpl length. lia.
Qed.

Lemma streamOut_unsupported_witness :
  let T := {| category := Other; sizeof := 32 |} in
  let k := (UINT8, [1; 0; 0; 0; 7]) in
  category T = Other
  /\ operator_shl LITTLE_ENDIAN T Plain k 5 = Done k
  /\ operator_shl LITTLE_ENDIAN T ClassTemplate4 k 5 = Done k
  /\ operator_shl LITTLE_ENDIAN T ClassTemplate k 5 = Fault MissingReturn
  /\ streamOut_array LITTLE_ENDIAN T k [5; 6] = (NONE, [0; 0; 0; 0]).
Proof.
  intros T k.
  split; [reflexivity |].
  exact (streamOut_unsupported LITTLE_ENDIAN T k 5 [5; 6] eq_refl).
Defined.

(** X11: for a supported element type no element is dropped: the buffer
    is the count prefix for the length of the sequence followed by the
    encodings of all the elements in order, [4 + length * byteWidth T]
    bytes, on either host. *)
Theorem fillOutputVector_supported (host : ByteOrder) (T : CType) (s : list Z) :
  supported T ->
  fillOutputVector host T s
  = _setSize host (concat (map (_fillArray host T) s)) (Z.of_nat (length s))
  /\ Z.of_nat (length (fillOutputVector host T s))
     = 4 + Z.of_nat (length s) * byteWidth T.
Proof.
  intros HT.
  assert (Hbuf : fillOutputVector host T s
                 = _setSize host (concat (map (_fillArray host T) s))
                            (Z.of_nat (length s))).
  { unfold fillOutputVector.
    destruct (fillOutputVector_loop_spec host T s (uint32 (Z.of_nat (length s))) [])
      as [Ht Hs].
    rewrite Ht, (encoded_supported host T s HT). cbn [app].
    apply _setSize_uint32.
    rewrite Hs, uint32_sub_l, (encoded_supported host T s HT), length_map.
    f_equal. lia. }
  split; [exact Hbuf |].
  rewrite Hbuf. unfold _setSize.
  rewrite length_app, Nat2Z.inj_add, _fillArrayInt_length.
  rewrite (concat_length_uniform (byteWidth T)).
  - rewrite length_map. reflexivity.
  - rewrite <- (encoded_supported host T s HT). apply encoded_widths.
Qed.

Lemma fillOutputVector_supported_witness :
  supported uint16_t
  /\ fillOutputVector BIG_ENDIAN uint16_t [1; 2; 3]
     = _setSize BIG_ENDIAN (concat (map (_fillArray BIG_ENDIAN uint16_t) [1; 2; 3]))
                (Z.of_nat (length [1; 2; 3]))
  /\ Z.of_nat (length (fillOutputVector BIG_ENDIAN uint16_t [1; 2; 3]))
     = 4 + Z.of_nat (length [1; 2; 3]) * byteWidth uint16_t.
Proof.
  assert (H : supported uint16_t) by (unfold supported; vm_compute; discriminate).
  split; [exact H |].
  exact (fillOutputVector_supported BIG_ENDIAN uint16_t [1; 2; 3] H).
Defined.

(* ------------------------------------------------------------------ *)
(** ** More on the sequence decode *)

Lemma readByteVec_loop_length host T input indSize : forall n idx ws,
  readByteVec_loop host T input indSize idx n = Done ws -> length ws = n.
Proof.
  induction n as [| n IH]; intros idx ws H; cbn in H.
  - injection H as <-. reflexivity.
  - destruct (range input (4 + idx * indSize) (4 + (idx + 1) * indSize)); [| discriminate].
    cbn in H.
    destruct (readByteVec_loop host T input indSize (idx + 1) n) as [rest |] eqn:E;
      [| discriminate].
    cbn in H. injection H as <-. simpl. f_equal. exact (IH _ _ E).
Qed.

Lemma readByteVec_loop_in_bounds host T input indSize : forall n idx,
  0 <= idx -> 0 <= indSize ->
  4 + (idx + Z.of_nat n) * indSize <= Z.of_nat (length input) ->
  exists ws, readByteVec_loop host T input indSize idx n = Done ws.
Proof.
  induction n as [| n IH]; intros idx Hidx Hind Hlen; cbn [readByteVec_loop].
  - eauto.
  - unfold range at 1.
    replace (0 <=? 4 + idx * indSize) with true by (symmetry; apply Z.leb_le; nia).
    replace (4 + idx * indSize <=? 4 + (idx + 1) * indSize) with true
      by (symmetry; apply Z.leb_le; nia).
    replace (4 + (idx + 1) * indSize <=? Z.of_nat (length input)) with true
      by (symmetry; apply Z.leb_le; nia).
    cbn.
    destruct (IH (idx + 1)) as [rest ->]; [lia | lia | nia |].
    cbn. eauto.
Qed.

Lemma _getSize_ByteVec_range host input size :
  _getSize_ByteVec host input = Done size -> 0 <= size < 2 ^ 32.
Proof.
  unfold _getSize_ByteVec. destruct (range input 0 4) as [sizeVec |]; [| discriminate].
  cbn. intros [= <-]. unfold _readArrayInt.
  change (_getSize uint32_t) with 32. cbv iota.
  destruct (negb (32 / 8 =? Z.of_nat (length sizeVec)));
    unfold static_cast, wrap_unsigned; cbn [category uint32_t];
    change (bits uint32_t) with 32; apply Z.mod_pos_bound; lia.
Qed.

(** What [readByteVec] returns when it returns: nothing, or as many values
    as the count it read, capped by [outsize] when that is positive. *)
Lemma readByteVec_written host T input outsize ws :
  readByteVec host T input outsize = Done ws ->
  exists size, _getSize_ByteVec host input = Done size
    /\ (ws = [] \/
        length ws = Z.to_nat (if 0 <? outsize then Z.min size outsize else size)).
Proof.
  unfold readByteVec.
  destruct (_getSize_ByteVec host input) as [size |] eqn:E; [| discriminate].
  cbn. intros H. exists size. split; [reflexivity |].
  destruct (Z.of_nat (length input) <? uint32 (size * uchar (_getSize T / 8) + 4)).
  - left. congruence.
  - right. exact (readByteVec_loop_length _ _ _ _ _ _ _ H).
Qed.

(** X12: a count prefix of zero decodes to nothing, whatever the element
    type, the capacity and the bytes after the prefix; in particular the
    empty sequence makes the round trip through a member, into a vector
    and into an array. *)
Theorem readByteVec_zero_count (host : ByteOrder) (T : CType)
    (rest : ByteVec) (outsize : Z) (k : SerializedMember) (v : list Z) :
  readByteVec host T (0 :: 0 :: 0 :: 0 :: rest) outsize = Done []
  /\ streamIn_vector host T (streamOut_array host T k []) v = Done v
  /\ streamIn_array host T (streamOut_array host T k []) v = Done v.
Proof.
  assert (Hz : forall r o, readByteVec host T (0 :: 0 :: 0 :: 0 :: r) o = Done []).
  { intros r o.
    assert (Hg : _getSize_ByteVec host (0 :: 0 :: 0 :: 0 :: r) = Done 0).
    { unfold _getSize_ByteVec, range.
      replace (4 <=? Z.of_nat (length (0 :: 0 :: 0 :: 0 :: r))) with true
        by (symmetry; apply Z.leb_le; simpl length; lia).
      destruct host; reflexivity. }
    unfold readByteVec. rewrite Hg. cbn [mbind outcome_bind].
    replace (uint32 (0 * uchar (_getSize T / 8) + 4)) with 4 by reflexivity.
    replace (Z.of_nat (length (0 :: 0 :: 0 :: 0 :: r)) <? 4) with false
      by (symmetry; apply Z.ltb_ge; simpl length; lia).
    replace (Z.to_nat (if 0 <? o then Z.min 0 o else 0)) with 0%nat
      by (destruct (0 <? o); lia).
    reflexivity. }
  assert (He : fillOutputVector host T [] = [0; 0; 0; 0])
    by (destruct host; reflexivity).
  split; [apply Hz |].
  unfold streamIn_vector, streamIn_array, streamOut_array. cbn [fst snd].
  rewrite bool_decide_eq_true_2 by reflexivity. cbn [negb].
  rewrite He, !Hz. cbn. unfold write_array. cbn. rewrite app_nil_r.
  split; reflexivity.
Qed.

(** X13: decoding into a fixed array of [N > 0] elements never writes
    past it: whenever the decode returns, the array is the values
    [readByteVec] wrote through the pointer (none when the tag differs),
    at most [N] of them, followed by the elements of the array from that
    position on, and its length is as before. *)
Theorem streamIn_array_keeps_length (host : ByteOrder) (T : CType)
    (k : SerializedMember) (v v' : list Z) :
  v <> [] ->
  streamIn_array host T k v = Done v' ->
  exists ws,
    (fst k <> _getTypeKey T /\ ws = []
     \/ fst k = _getTypeKey T
        /\ readByteVec host T (snd k) (Z.of_nat (length v)) = Done ws)
    /\ (length ws <= length v)%nat
    /\ v' = ws ++ skipn (length ws) v
    /\ length v' = length v.
Proof.
  intros Hne. unfold streamIn_array.
  case_bool_decide as Htag; cbn [negb].
  - destruct (readByteVec host T k.2 (Z.of_nat (length v))) as [ws |] eqn:E;
      [| discriminate].
    cbn. intros [= <-].
    assert (Hws : (length ws <= length v)%nat).
    { destruct (readByteVec_written _ _ _ _ _ E) as (size & Hsize & [-> | Hlen]);
        [simpl; lia |].
      rewrite Hlen.
      destruct v as [| x v]; [congruence |].
      replace (0 <? Z.of_nat (length (x :: v))) with true
        by (symmetry; apply Z.ltb_lt; simpl length; lia).
      lia. }
    exists ws. split; [right; split; [exact Htag | reflexivity] |].
    split; [exact Hws |]. split; [reflexivity |].
    unfold write_array. rewrite length_app, length_skipn. lia.
  - intros [= <-]. exists []. split; [left; split; [exact Htag | reflexivity] |].
    split; [simpl; lia |]. split; reflexivity.
Qed.

(** A member whose prefix is read as the count 255, decoded into an array
    of two elements: the write is capped at two. *)
Lemma streamIn_array_keeps_length_witness :
  let k := (UINT8, [0x01; 0; 0; 0] ++ repeat 7 255) in
  [5; 6] <> []
  /\ streamIn_array LITTLE_ENDIAN uint8_t k [5; 6] = Done [255; 255]
  /\ exists ws,
       (fst k <> _getTypeKey uint8_t /\ ws = []
        \/ fst k = _getTypeKey uint8_t
           /\ readByteVec LITTLE_ENDIAN uint8_t (snd k) (Z.of_nat (length [5; 6])) = Done ws)
       /\ (length ws <= length [5; 6])%nat
       /\ [255; 255] = ws ++ skipn (length ws) [5; 6]
       /\ length [255; 255] = length [5; 6].
Proof.
  intros k.
  assert (H1 : [5; 6] <> ([] : list Z)) by discriminate.
  assert (H2 : streamIn_array LITTLE_ENDIAN uint8_t k [5; 6] = Done [255; 255])
    by (vm_compute; reflexivity).
  split; [exact H1 |]. split; [exact H2 |].
  exact (streamIn_array_keeps_length LITTLE_ENDIAN uint8_t k [5; 6] [255; 255] H1 H2).
Defined.

(** X14: apart from a buffer too short for the prefix and a length check
    that wraps, the sequence decode stays in bounds: when the count it
    reads times the element width plus 4 is below [2 ^ 32], it returns,
    with nothing or with as many values as that count allows. *)
Theorem readByteVec_in_bounds (host : ByteOrder) (T : CType)
    (input : ByteVec) (outsize size : Z) :
  _getSize_ByteVec host input = Done size ->
  size * byteWidth T + 4 < 2 ^ 32 ->
  exists ws, readByteVec host T input outsize = Done ws
             /\ Z.of_nat (length ws) <= size.
Proof.
  intros Hsize Hwrap.
  pose proof (_getSize_ByteVec_range host input size Hsize) as Hrange.
  destruct (_getSize_range T) as [[H0 H256] _].
  assert (Hbw : 0 <= byteWidth T < 32).
  { unfold byteWidth. split; [apply Z.div_pos; lia |].
    apply Z.div_lt_upper_bound; lia. }
  assert (Hind : uchar (_getSize T / 8) = byteWidth T).
  { unfold uchar, byteWidth in *. apply Z.mod_small.
    change (2 ^ 8) with 256. lia. }
  unfold readByteVec. rewrite Hsize. cbn [mbind outcome_bind].
  rewrite Hind.
  assert (Hu : uint32 (size * byteWidth T + 4) = size * byteWidth T + 4).
  { unfold uint32. apply Z.mod_small. nia. }
  rewrite Hu.
  destruct (Z.ltb_spec (Z.of_nat (length input)) (size * byteWidth T + 4)) as [Hlt | Hge].
  - exists []. split; [reflexivity | simpl; lia].
  - set (readSize := if 0 <? outsize then Z.min size outsize else size).
    assert (Hrs : readSize <= size) by (subst readSize; destruct (0 <? outsize); lia).
    destruct (readByteVec_loop_in_bounds host T input (byteWidth T)
                (Z.to_nat readSize) 0) as [ws Hws]; [lia | lia | nia |].
    exists ws. split; [exact Hws |].
    rewrite (readByteVec_loop_length _ _ _ _ _ _ _ Hws). lia.
Qed.

Lemma readByteVec_in_bounds_witness :
  _getSize_ByteVec LITTLE_ENDIAN ([0x01; 0; 0; 0] ++ repeat 7 255) = Done 255
  /\ 255 * byteWidth uint8_t + 4 < 2 ^ 32
  /\ exists ws, readByteVec LITTLE_ENDIAN uint8_t ([0x01; 0; 0; 0] ++ repeat 7 255) 0 = Done ws
                /\ Z.of_nat (length ws) <= 255.
Proof.
  assert (H1 : _getSize_ByteVec LITTLE_ENDIAN ([0x01; 0; 0; 0] ++ repeat 7 255) = Done 255)
    by reflexivity.
  assert (H2 : 255 * byteWidth uint8_t + 4 < 2 ^ 32) by reflexivity.
  split; [exact H1 |]. split; [exact H2 |].
  exact (readByteVec_in_bounds LITTLE_ENDIAN uint8_t
           ([0x01; 0; 0; 0] ++ repeat 7 255) 0 255 H1 H2).
Defined.

(* ------------------------------------------------------------------ *)
(** ** The member store *)

Lemma contains_true k (o : Object) : contains k o = true <-> is_Some (_members o !! k).
Proof. unfold contains. rewrite bool_decide_eq_true. reflexivity. Qed.

Lemma contains_false k (o : Object) : contains k o = false <-> _members o !! k = None.
Proof.
  unfold contains. rewrite bool_decide_eq_false, <- eq_None_not_Some. reflexivity.
Qed.

Lemma key_members k (o : Object) :
  _members (key k o).2 = <[k := (key k o).1]> (_members o).
Proof.
  unfold key. destruct (_members o !! k) as [m |] eqn:E; cbn [fst snd _members].
  - symmetry. apply insert_id. exact E.
  - reflexivity.
Qed.

(** A member that holds no bytes decodes into no scalar destination. *)
Lemma streamIn_empty_member host T (tag : TypeKey) (d : Z) :
  streamIn host T (tag, []) d = Done d.
Proof.
  unfold streamIn. cbn [fst snd length].
  destruct (_getSize_range T) as [[H0 _] _].
  assert (0 <= _getSize T / 8) by (apply Z.div_pos; lia).
  replace (Z.of_nat 0 <? _getSize T / 8 + 4) with true
    by (symmetry; apply Z.ltb_lt; lia).
  rewrite orb_true_r. reflexivity.
Qed.

(** X15: [key] is lookup-or-create: it designates the member stored under
    the name, or a new empty member with the tag [NONE] when there is
    none; afterwards the name is contained, and the other names and the
    concrete type of the object are as before. *)
Theorem key_lookup_or_create (k : string) (o : Object) :
  (key k o).1 = default (NONE, []) (_members o !! k)
  /\ _members (key k o).2 = <[k := (key k o).1]> (_members o)
  /\ contains k (key k o).2 = true
  /\ dynamic_type (key k o).2 = dynamic_type o
  /\ forall k', k' <> k -> contains k' (key k o).2 = contains k' o.
Proof.
  split; [unfold key; destruct (_members o !! k); reflexivity |].
  split; [apply key_members |].
  split; [apply contains_true; rewrite key_members, lookup_insert_eq; eauto |].
  split; [unfold key; destruct (_members o !! k); reflexivity |].
  intros k' Hk. unfold contains.
  rewrite key_members, lookup_insert_ne by congruence. reflexivity.
Qed.

(** X16: reading a scalar through [key] from a name the object does not
    contain leaves the destination as it was, for every type, and creates
    the name: the object contains it afterwards, as an empty member. *)
Theorem key_streamIn_absent (host : ByteOrder) (T : CType)
    (k : string) (d : Z) (o : Object) :
  contains k o = false ->
  (key_streamIn host T k d o).1 = Done d
  /\ contains k (key_streamIn host T k d o).2 = true
  /\ _members (key_streamIn host T k d o).2 = <[k := (NONE, [])]> (_members o).
Proof.
  intros Hc. apply contains_false in Hc.
  unfold key_streamIn, key. rewrite Hc. cbn [fst snd _members].
  split; [apply streamIn_empty_member |].
  split; [| reflexivity].
  apply contains_true. cbn [_members]. rewrite lookup_insert_eq. eauto.
Qed.

Lemma key_streamIn_absent_witness :
  let o := {| dynamic_type := "Foo"; _members := ∅ |} in
  contains "x" o = false
  /\ (key_streamIn LITTLE_ENDIAN uint16_t "x" 42 o).1 = Done 42
  /\ contains "x" (key_streamIn LITTLE_ENDIAN uint16_t "x" 42 o).2 = true
  /\ _members (key_streamIn LITTLE_ENDIAN uint16_t "x" 42 o).2
     = <["x" := (NONE, [])]> (_members o).
Proof.
  intros o.
  assert (H : contains "x" o = false) by reflexivity.
  split; [exact H |].
  exact (key_streamIn_absent LITTLE_ENDIAN uint16_t "x" 42 o H).
Defined.

(** X17: after [o.key(k) << v] for a scalar [v] of a supported type, the
    object contains [k], the members under other names are as before, and
    [o.key(k) >> d] at the same type hands the payload to the decoder and
    leaves the object as it is. *)
Theorem key_streamOut_streamIn (host : ByteOrder) (T : CType)
    (k : string) (v d : Z) (o : Object) :
  supported T ->
  let o' := key_streamOut host T k v o in
  contains k o' = true
  /\ key_streamIn host T k d o'
     = (Done (_readArray host T (_fillArray host T v)), o')
  /\ forall k', k' <> k -> _members o' !! k' = _members o !! k'.
Proof.
  intros HT o'.
  assert (Hk : _members o' !! k = Some (streamOut host T (key k o).1 v)).
  { subst o'. unfold key_streamOut. cbn [_members]. apply lookup_insert_eq. }
  split; [apply contains_true; rewrite Hk; eauto |].
  split.
  - unfold key_streamIn, key. rewrite Hk. cbn [fst snd].
    rewrite streamIn_of_streamOut by exact HT. reflexivity.
  - intros k' Hne. subst o'. unfold key_streamOut. cbn [_members].
    rewrite lookup_insert_ne by congruence.
    rewrite key_members, lookup_insert_ne by congruence. reflexivity.
Qed.

Lemma key_streamOut_streamIn_witness :
  let o := {| dynamic_type := "Foo"; _members := ∅ |} in
  let o' := key_streamOut LITTLE_ENDIAN uint8_t "x" 0xFE o in
  supported uint8_t
  /\ contains "x" o' = true
  /\ key_streamIn LITTLE_ENDIAN uint8_t "x" 0 o'
     = (Done (_readArray LITTLE_ENDIAN uint8_t (_fillArray LITTLE_ENDIAN uint8_t 0xFE)), o')
  /\ forall k', k' <> "x" -> _members o' !! k' = _members o !! k'.
Proof.
  intros o o'.
  assert (H : supported uint8_t) by (unfold supported; vm_compute; discriminate).
  split; [exact H |].
  exact (key_streamOut_streamIn LITTLE_ENDIAN uint8_t "x" 0xFE 0 o H).
Defined.

(** X18: [o.key(k) << v] for a value of a type that is neither integral
    nor floating encodes nothing but still creates the name.  When the
    type is not an instance of a class template, or is one with four type
    parameters, a member that exists is left as it is, an absent one is
    now an empty member with the tag [NONE], and the object contains [k];
    for any other instance of a class template, such as [std::string],
    the call reaches a [streamOut] that has no [return]. *)
Theorem key_streamOut_unsupported (host : ByteOrder) (T : CType)
    (k : string) (v : Z) (o : Object) :
  category T = Other ->
  let o' := {| dynamic_type := dynamic_type o;
               _members := <[k := default (NONE, []) (_members o !! k)]> (_members o) |} in
  key_operator_shl host T Plain k v o = Done o'
  /\ key_operator_shl host T ClassTemplate4 k v o = Done o'
  /\ key_operator_shl host T ClassTemplate k v o = Fault MissingReturn
  /\ contains k o' = true.
Proof.
  intros Hc o'.
  assert (Hs : forall m, streamOut host T m v = m).
  { intros m. unfold streamOut, _fillArray. rewrite Hc. reflexivity. }
  assert (Ho : {| dynamic_type := dynamic_type (key k o).2;
                  _members := <[k := (key k o).1]> (_members (key k o).2) |} = o').
  { subst o'. rewrite key_members, insert_insert_eq.
    unfold key. destruct (_members o !! k); reflexivity. }
  unfold key_operator_shl, operator_shl. cbn [mbind outcome_bind].
  rewrite Hs, Ho.
  repeat split.
  apply contains_true. subst o'. cbn [_members]. rewrite lookup_insert_eq. eauto.
Qed.

Lemma key_streamOut_unsupported_witness :
  let o := {| dynamic_type := "Foo"; _members := ∅ |} in
  let T := {| category := Other; sizeof := 32 |} in
  let o' := {| dynamic_type := dynamic_type o;
               _members := <["x" := default (NONE, []) (_members o !! "x")]> (_members o) |} in
  category T = Other
  /\ key_operator_shl LITTLE_ENDIAN T Plain "x" 5 o = Done o'
  /\ key_operator_shl LITTLE_ENDIAN T ClassTemplate4 "x" 5 o = Done o'
  /\ key_operator_shl LITTLE_ENDIAN T ClassTemplate "x" 5 o = Fault MissingReturn
  /\ contains "x" o' = true.
Proof.
  intros o T o'.
  split; [reflexivity |].
  exact (key_streamOut_unsupported LITTLE_ENDIAN T "x" 5 o eq_refl).
Defined.

(* ------------------------------------------------------------------ *)
(** ** More on the factory *)

(** What one [add] does to the entry of each name, and to the heap. *)
Lemma add_lookup (n : string) (p : N) (st : State) (cName : string) :
  _serializables (add n p st) !! cName
  = match _serializables st !! cName with
    | Some q => Some q
    | None => if bool_decide (n = cName) && negb (bool_decide (p = NULL))
              then Some p else None
    end.
Proof.
  unfold add. case_bool_decide as Hp; cbn [negb].
  - rewrite andb_false_r. destruct (_serializables st !! cName); reflexivity.
  - rewrite andb_true_r.
    destruct (_serializables st !! n) as [q |] eqn:En.
    + case_bool_decide as Hn; [subst; rewrite En; reflexivity |].
      destruct (_serializables st !! cName); reflexivity.
    + cbn [_serializables]. case_bool_decide as Hn.
      * subst. rewrite lookup_insert_eq, En. reflexivity.
      * rewrite lookup_insert_ne by exact Hn.
        destruct (_serializables st !! cName); reflexivity.
Qed.

Lemma add_heap (n : string) (p : N) (st : State) : heap (add n p st) = heap st.
Proof.
  unfold add. case_bool_decide; [reflexivity |].
  destruct (_serializables st !! n); reflexivity.
Qed.

(** X19: after any sequence of [add] calls, each name is registered to the
    prototype it had before, or else to the first non-null pointer the
    sequence offers for it; later offers for the name are ignored, and no
    call touches the heap. *)
Theorem add_all_first_wins (l : list (string * N)) (st : State) (cName : string) :
  _serializables (add_all l st) !! cName
  = match _serializables st !! cName with
    | Some p => Some p
    | None => first_registered cName l
    end
  /\ heap (add_all l st) = heap st.
Proof.
  revert st. induction l as [| [n p] l IH]; intros st.
  - cbn. split; [destruct (_serializables st !! cName); reflexivity | reflexivity].
  - cbn [add_all fold_left fst snd first_registered].
    destruct (IH (add n p st)) as [IHl IHh]. unfold add_all in IHl, IHh.
    rewrite IHl, IHh, add_lookup, add_heap. split; [| reflexivity].
    destruct (_serializables st !! cName); [reflexivity |].
    destruct (bool_decide (n = cName) && negb (bool_decide (p = NULL))); reflexivity.
Qed.

(** X20: two successive [create] calls for a name registered to a live
    prototype return two distinct non-null addresses, both different from
    the prototype; each holds a blank object of the concrete type of the
    prototype, and the prototype and the registry are as before. *)
Theorem create_twice (cName : string) (st : State) (p : N) (self : Object) :
  _serializables st !! cName = Some p ->
  heap st !! p = Some self ->
  exists q1 st1 q2 st2,
    create cName st = Done (q1, st1)
    /\ create cName st1 = Done (q2, st2)
    /\ q1 <> q2 /\ q1 <> NULL /\ q2 <> NULL /\ q1 <> p /\ q2 <> p
    /\ heap st2 !! q1 = Some (blank self)
    /\ heap st2 !! q2 = Some (blank self)
    /\ heap st2 !! p = Some self
    /\ _serializables st2 = _serializables st.
Proof.
  intros Hn Hp.
  destruct (virtual_create_fresh self (heap st)) as [Hq1 Hf1].
  set (q1 := (virtual_create self (heap st)).1) in *.
  set (h1 := (virtual_create self (heap st)).2).
  assert (Eh1 : h1 = <[q1 := blank self]> (heap st)) by reflexivity.
  assert (Hq1p : q1 <> p) by (intros ->; congruence).
  assert (Hp1 : h1 !! p = Some self)
    by (rewrite Eh1, lookup_insert_ne by exact Hq1p; exact Hp).
  destruct (virtual_create_fresh self h1) as [Hq2 Hf2].
  set (q2 := (virtual_create self h1).1) in *.
  set (h2 := (virtual_create self h1).2).
  assert (Eh2 : h2 = <[q2 := blank self]> h1) by reflexivity.
  assert (Hq12 : q1 <> q2).
  { intros E. rewrite <- E, Eh1, lookup_insert_eq in Hf2. discriminate. }
  assert (Hq2p : q2 <> p) by (intros ->; congruence).
  exists q1, {| heap := h1; _serializables := _serializables st |},
         q2, {| heap := h2; _serializables := _serializables st |}.
  split; [unfold create; rewrite Hn, Hp; reflexivity |].
  split; [unfold create; cbn [heap _serializables]; rewrite Hn, Hp1; reflexivity |].
  repeat split; try assumption; cbn [heap].
  - rewrite Eh2, lookup_insert_ne, Eh1, lookup_insert_eq by congruence. reflexivity.
  - rewrite Eh2, lookup_insert_eq. reflexivity.
  - rewrite Eh2, lookup_insert_ne by exact Hq2p. exact Hp1.
Qed.

Lemma create_twice_witness :
  let protoFoo := {| dynamic_type := "Foo"; _members := ∅ |} in
  let st := {| heap := {[ 1%N := protoFoo ]}; _serializables := {[ "Foo" := 1%N ]} |} in
  _serializables st !! "Foo" = Some 1%N
  /\ heap st !! 1%N = Some protoFoo
  /\ exists q1 st1 q2 st2,
       create "Foo" st = Done (q1, st1)
       /\ create "Foo" st1 = Done (q2, st2)
       /\ q1 <> q2 /\ q1 <> NULL /\ q2 <> NULL /\ q1 <> 1%N /\ q2 <> 1%N
       /\ heap st2 !! q1 = Some (blank protoFoo)
       /\ heap st2 !! q2 = Some (blank protoFoo)
       /\ heap st2 !! 1%N = Some protoFoo
       /\ _serializables st2 = _serializables st.
Proof.
  intros protoFoo st.
  assert (H1 : _serializables st !! "Foo" = Some 1%N) by reflexivity.
  assert (H2 : heap st !! 1%N = Some protoFoo) by reflexivity.
  split; [exact H1 |]. split; [exact H2 |].
  exact (create_twice "Foo" st 1%N protoFoo H1 H2).
Defined.

(** The loop of the destructor over the entries of the registry, as a
    fold over their list. *)
Lemma dtor_fold_owned (l : list (string * N)) (h0 : gmap N Object) :
  NoDup l.*2 ->
  Forall (fun p => p <> NULL /\ is_Some (h0 !! p)) l.*2 ->
  exists h',
    foldr (uncurry (fun (_ : string) (p : N) (acc : outcome (gmap N Object)) =>
                      h ← acc; delete_object p h)) (Done h0) l = Done h'
    /\ forall a, h' !! a = if bool_decide (a ∈ l.*2) then None else h0 !! a.
Proof.
  induction l as [| [n p] l IH]; intros Hnd Hall.
  - exists h0. split; [reflexivity |]. intros a.
    rewrite bool_decide_eq_false_2 by (cbn; apply not_elem_of_nil). reflexivity.
  - cbn [fmap list_fmap snd] in Hnd, Hall.
    apply NoDup_cons in Hnd as [Hp Hnd].
    apply Forall_cons in Hall as [[Hnull Hlive] Hall].
    destruct (IH Hnd Hall) as (h1 & Hfold & Hh1).
    cbn [foldr uncurry]. rewrite Hfold. cbn [mbind outcome_bind].
    unfold delete_object.
    rewrite bool_decide_eq_false_2 by exact Hnull.
    rewrite Hh1, bool_decide_eq_false_2 by exact Hp.
    destruct Hlive as [obj ->].
    exists (delete p h1). split; [reflexivity |].
    intros a. cbn [fmap list_fmap snd].
    destruct (decide (a = p)) as [-> | Hne].
    + rewrite lookup_delete_eq.
      rewrite bool_decide_eq_true_2 by (apply list_elem_of_here). reflexivity.
    + rewrite lookup_delete_ne by congruence. rewrite Hh1.
      destruct (decide (a ∈ l.*2)) as [Hin | Hout].
      * rewrite !bool_decide_eq_true_2;
          [reflexivity | apply list_elem_of_further; exact Hin | exact Hin].
      * rewrite !bool_decide_eq_false_2;
          [reflexivity | | exact Hout].
        intros Hin. apply elem_of_cons in Hin as [? | ?]; contradiction.
Qed.

(** X21: when every prototype the registry holds is a live object held
    under one name only, the destructor returns: it deletes exactly those
    prototypes, leaves every other object where it was, and clears the
    registry. *)
Theorem Factory_dtor_owned (st : State) :
  owns_prototypes st ->
  exists st',
    Factory_dtor st = Done st'
    /\ _serializables st' = ∅
    /\ forall a, heap st' !! a
                 = if bool_decide (a ∈ prototypes st) then None else heap st !! a.
Proof.
  intros [Hnd Hall]. unfold Factory_dtor. rewrite map_fold_foldr.
  destruct (dtor_fold_owned (map_to_list (_serializables st)) (heap st) Hnd Hall)
    as (h' & Hfold & Hh').
  rewrite Hfold. cbn [mbind outcome_bind].
  eexists. split; [reflexivity |]. split; [reflexivity |]. exact Hh'.
Qed.

Lemma Factory_dtor_owned_witness :
  let protoFoo := {| dynamic_type := "Foo"; _members := ∅ |} in
  let protoBar := {| dynamic_type := "Bar"; _members := ∅ |} in
  let st := {| heap := {[ 1%N := protoFoo; 2%N := protoBar; 3%N := protoFoo ]};
               _serializables := {[ "Foo" := 1%N; "Bar" := 2%N ]} |} in
  owns_prototypes st
  /\ exists st',
       Factory_dtor st = Done st'
       /\ _serializables st' = ∅
       /\ forall a, heap st' !! a
                    = if bool_decide (a ∈ prototypes st) then None else heap st !! a.
Proof.
  intros protoFoo protoBar st.
  assert (H : owns_prototypes st).
  { unfold owns_prototypes. split; apply (bool_decide_unpack _); vm_compute; exact I. }
  split; [exact H |].
  exact (Factory_dtor_owned st H).
Defined.

(** X22: when one non-null prototype is registered under two names, the
    destructor deletes it twice: the second [delete] is of an object that
    is no longer there. *)
Theorem Factory_dtor_double_delete (st : State) (a b : string) (p : N) :
  a <> b ->
  p <> NULL ->
  _serializables st !! a = Some p ->
  _serializables st !! b = Some p ->
  Factory_dtor st = Fault DanglingPointer.
Proof.
  intros Hab Hp Ha Hb. unfold Factory_dtor.
  set (f := fun (_ : string) (q : N) (acc : outcome (gmap N Object)) =>
              h ← acc; delete_object q h).
  assert (Hinv :
    (forall e, map_fold f (Done (heap st)) (_serializables st) = Fault e ->
               e = DanglingPointer)
    /\ forall h', map_fold f (Done (heap st)) (_serializables st) = Done h' ->
         (forall n q, _serializables st !! n = Some q -> q <> NULL -> h' !! q = None)
         /\ (forall n1 n2 q, n1 <> n2 -> _serializables st !! n1 = Some q ->
                             _serializables st !! n2 = Some q -> q = NULL)).
  { apply (map_fold_weak_ind
             (fun r m =>
                (forall e, r = Fault e -> e = DanglingPointer)
                /\ forall h', r = Done h' ->
                     (forall n q, m !! n = Some q -> q <> NULL -> h' !! q = None)
                     /\ (forall n1 n2 q, n1 <> n2 -> m !! n1 = Some q ->
                                         m !! n2 = Some q -> q = NULL))).
    - split; [intros e; discriminate |]. intros h' _. split.
      + intros n q Hn. rewrite lookup_empty in Hn. discriminate.
      + intros n1 n2 q _ Hn. rewrite lookup_empty in Hn. discriminate.
    - intros i x m r Hi [Hnf IH].
      assert (Hstep : forall h, r = Done h ->
                f i x r = if bool_decide (x = NULL) then Done h
                          else match h !! x with
                               | None => Fault DanglingPointer
                               | Some _ => Done (delete x h)
                               end).
      { intros h ->. reflexivity. }
      split.
      + destruct r as [h | e0]; [| exact Hnf].
        rewrite (Hstep h eq_refl). intros e. case_bool_decide; [discriminate |].
        destruct (h !! x); [discriminate | congruence].
      + intros h'' Hr. destruct r as [h | e]; [| discriminate].
        destruct (IH h eq_refl) as [IH1 IH2].
        rewrite (Hstep h eq_refl) in Hr.
        case_bool_decide as Hx.
        * injection Hr as <-. subst x. split.
          -- intros n q Hn Hq. destruct (decide (i = n)) as [-> | Hin].
             ++ rewrite lookup_insert_eq in Hn. congruence.
             ++ rewrite lookup_insert_ne in Hn by exact Hin. eauto.
          -- intros n1 n2 q Hne H1 H2.
             destruct (decide (i = n1)) as [-> | Hi1];
               [rewrite lookup_insert_eq in H1; congruence |].
             destruct (decide (i = n2)) as [-> | Hi2];
               [rewrite lookup_insert_eq in H2; congruence |].
             rewrite lookup_insert_ne in H1, H2 by assumption. eauto.
        * destruct (h !! x) as [obj |] eqn:Ex; [| discriminate].
          injection Hr as <-. split.
          -- intros n q Hn Hq. destruct (decide (i = n)) as [-> | Hin].
             ++ rewrite lookup_insert_eq in Hn. injection Hn as <-.
                apply lookup_delete_eq.
             ++ rewrite lookup_insert_ne in Hn by exact Hin.
                destruct (decide (x = q)) as [-> | Hxq];
                  [apply lookup_delete_eq |].
                rewrite lookup_delete_ne by exact Hxq. eauto.
          -- intros n1 n2 q Hne H1 H2.
             destruct (decide (i = n1)) as [-> | Hi1].
             ++ rewrite lookup_insert_eq in H1. injection H1 as <-.
                rewrite lookup_insert_ne in H2 by exact Hne.
                destruct (decide (x = NULL)) as [E | NE]; [exact E |].
                rewrite (IH1 n2 x H2 NE) in Ex. discriminate.
             ++ rewrite lookup_insert_ne in H1 by exact Hi1.
                destruct (decide (i = n2)) as [-> | Hi2].
                ** rewrite lookup_insert_eq in H2. injection H2 as <-.
                   destruct (decide (x = NULL)) as [E | NE]; [exact E |].
                   rewrite (IH1 n1 x H1 NE) in Ex. discriminate.
                ** rewrite lookup_insert_ne in H2 by exact Hi2. eauto. }
  destruct Hinv as [Hnf Hdone].
  destruct (map_fold f (Done (heap st)) (_serializables st)) as [h' | e].
  - destruct (Hdone h' eq_refl) as [_ H2].
    exfalso. apply Hp. exact (H2 a b p Hab Ha Hb).
  - cbn. rewrite (Hnf e eq_refl). reflexivity.
Qed.

Lemma Factory_dtor_double_delete_witness :
  let protoFoo := {| dynamic_type := "Foo"; _members := ∅ |} in
  let st := add "B" 1%N (add "A" 1%N {| heap := {[ 1%N := protoFoo ]}; _serializables := ∅ |}) in
  "A" <> "B" /\ 1%N <> NULL
  /\ _serializables st !! "A" = Some 1%N
  /\ _serializables st !! "B" = Some 1%N
  /\ Factory_dtor st = Fault DanglingPointer.
Proof.
  intros protoFoo st.
  assert (H1 : "A" <> "B") by discriminate.
  assert (H2 : 1%N <> NULL) by discriminate.
  assert (H3 : _serializables st !! "A" = Some 1%N) by reflexivity.
  assert (H4 : _serializables st !! "B" = Some 1%N) by reflexivity.
  split; [exact H1 |]. split; [exact H2 |]. split; [exact H3 |]. split; [exact H4 |].
  exact (Factory_dtor_double_delete st "A" "B" 1%N H1 H2 H3 H4).
Defined.

(* ------------------------------------------------------------------ *)
(** ** Sequence members: encode, then decode *)

(** The count [readByteVec] reads back from the prefix of a sequence of
    1 to 255 elements on a little-endian host: always more than the
    number of elements. *)
Lemma count_misread (n : Z) :
  0 < n < 256 ->
  bytes_of 4 n = [n; 0; 0; 0]
  /\ n < _readArrayInt LITTLE_ENDIAN uint32_t [n; 0; 0; 0] < 2 ^ 16.
Proof.
  intros Hn.
  assert (Hin : In n (map Z.of_nat (seq 0 256))) by (apply byte_cases; lia).
  set (ok := fun n : Z =>
               (n =? 0)
               || (bool_decide (bytes_of 4 n = [n; 0; 0; 0])
                   && (n <? _readArrayInt LITTLE_ENDIAN uint32_t [n; 0; 0; 0])
                   && (_readArrayInt LITTLE_ENDIAN uint32_t [n; 0; 0; 0] <? 2 ^ 16))).
  assert (Hall : forallb ok (map Z.of_nat (seq 0 256)) = true)
    by (vm_compute; reflexivity).
  pose proof (proj1 (forallb_forall ok _) Hall n Hin) as Hok.
  unfold ok in Hok.
  apply orb_prop in Hok as [H0 | Hok]; [apply Z.eqb_eq in H0; lia |].
  apply andb_prop in Hok as [Hok H3]. apply andb_prop in Hok as [H1 H2].
  apply bool_decide_eq_true in H1. apply Z.ltb_lt in H2, H3.
  split; [exact H1 | lia].
Qed.

(** X23: on a little-endian host no sequence of 1 to 255 elements of a
    supported type makes the round trip through a member: the decode
    misreads the count as a larger one, fails its length check and writes
    nothing, into a vector as into an array. *)
Theorem streamIn_streamOut_array_writes_nothing (T : CType)
    (k : SerializedMember) (s v : list Z) :
  supported T ->
  (0 < length s < 256)%nat ->
  readByteVec LITTLE_ENDIAN T (snd (streamOut_array LITTLE_ENDIAN T k s)) 0 = Done []
  /\ streamIn_vector LITTLE_ENDIAN T (streamOut_array LITTLE_ENDIAN T k s) v = Done v
  /\ streamIn_array LITTLE_ENDIAN T (streamOut_array LITTLE_ENDIAN T k s) v = Done v.
Proof.
  intros HT Hs.
  set (n := Z.of_nat (length s)).
  destruct (count_misread n) as [Hpre [Hlo Hhi]]; [subst n; lia |].
  set (payload := concat (map (_fillArray LITTLE_ENDIAN T) s)).
  set (buf := fillOutputVector LITTLE_ENDIAN T s).
  assert (Hbuf : buf = [n; 0; 0; 0] ++ payload).
  { subst buf payload n.
    destruct (fillOutputVector_loop_spec LITTLE_ENDIAN T s
                (uint32 (Z.of_nat (length s))) []) as [Ht Hc].
    unfold fillOutputVector. rewrite Ht, (encoded_supported _ T s HT). cbn [app].
    rewrite (_setSize_uint32 _ _ _ (Z.of_nat (length s))).
    - unfold _setSize. rewrite _fillArrayInt_uint32.
      unfold uint32. rewrite (bytes_of_mod 4 32) by lia. rewrite Hpre. reflexivity.
    - rewrite Hc, uint32_sub_l, (encoded_supported _ T s HT), length_map.
      f_equal. lia. }
  assert (Hlen : Z.of_nat (length buf) = 4 + n * byteWidth T).
  { subst buf payload.
    destruct (fillOutputVector_loop_spec LITTLE_ENDIAN T s
                (uint32 (Z.of_nat (length s))) []) as [Ht _].
    rewrite Hbuf, length_app, Nat2Z.inj_add.
    rewrite (concat_length_uniform (byteWidth T)).
    - rewrite length_map. subst n. simpl length. lia.
    - rewrite <- (encoded_supported _ T s HT). apply encoded_widths. }
  assert (Hbw : 0 < byteWidth T < 32).
  { destruct s as [| x s']; [simpl in Hs; lia |].
    destruct (_fillArray_supported_length LITTLE_ENDIAN T x HT) as [_ Hpos].
    destruct (_getSize_range T) as [[_ H256] _].
    split; [exact Hpos |]. unfold byteWidth. apply Z.div_lt_upper_bound; lia. }
  assert (Hread : forall outsize, readByteVec LITTLE_ENDIAN T buf outsize = Done []).
  { intros outsize. unfold readByteVec, _getSize_ByteVec.
    assert (Hr : range buf 0 4 = Done [n; 0; 0; 0])
      by (rewrite Hbuf; exact (range_middle [] [n; 0; 0; 0] payload)).
    rewrite Hr. cbn [mbind outcome_bind].
    set (c := _readArrayInt LITTLE_ENDIAN uint32_t [n; 0; 0; 0]) in *.
    assert (Hind : uchar (_getSize T / 8) = byteWidth T).
    { unfold uchar, byteWidth in *. apply Z.mod_small. change (2 ^ 8) with 256. lia. }
    rewrite Hind.
    assert (Hu : uint32 (c * byteWidth T + 4) = c * byteWidth T + 4).
    { unfold uint32. apply Z.mod_small. nia. }
    rewrite Hu, Hlen.
    replace (4 + n * byteWidth T <? c * byteWidth T + 4) with true
      by (symmetry; apply Z.ltb_lt; nia).
    reflexivity. }
  unfold streamIn_vector, streamIn_array, streamOut_array. cbn [fst snd].
  fold buf. rewrite bool_decide_eq_true_2 by reflexivity. cbn [negb].
  rewrite !Hread. cbn [mbind outcome_bind].
  unfold write_array. cbn [length skipn app]. rewrite app_nil_r.
  repeat split; reflexivity.
Qed.

Lemma streamIn_streamOut_array_writes_nothing_witness :
  supported uint8_t
  /\ (0 < length [1; 2; 3] < 256)%nat
  /\ readByteVec LITTLE_ENDIAN uint8_t
       (snd (streamOut_array LITTLE_ENDIAN uint8_t (NONE, []) [1; 2; 3])) 0 = Done []
  /\ streamIn_vector LITTLE_ENDIAN uint8_t
       (streamOut_array LITTLE_ENDIAN uint8_t (NONE, []) [1; 2; 3]) [] = Done []
  /\ streamIn_array LITTLE_ENDIAN uint8_t
       (streamOut_array LITTLE_ENDIAN uint8_t (NONE, []) [1; 2; 3]) [] = Done [].
Proof.
  assert (H1 : supported uint8_t) by (unfold supported; vm_compute; discriminate).
  assert (H2 : (0 < length [1; 2; 3] < 256)%nat) by (simpl; lia).
  split; [exact H1 |]. split; [exact H2 |].
  exact (streamIn_streamOut_array_writes_nothing uint8_t (NONE, []) [1; 2; 3] [] H1 H2).
Defined.

(** For a [Plain] operand [o.key(k) << v] is [key_streamOut]. *)
Lemma key_operator_shl_Plain host T k v o :
  key_operator_shl host T Plain k v o = Done (key_streamOut host T k v o).
Proof. reflexivity. Qed.

(* ------------------------------------------------------------------ *)
(** ** The count prefix on a big-endian host *)

(** On a big-endian host the count prefix is the four low-order bytes of
    the count, most significant first. *)
Lemma _fillArrayInt_uint32_big_endian z :
  _fillArrayInt BIG_ENDIAN uint32_t z = rev (bytes_of 4 z).
Proof.
  rewrite _fillArrayInt_order by (vm_compute; tauto). reflexivity.
Qed.

(** C4, on the code: on a big-endian host, for every supported scalar type
    and every value, the first four bytes of the stored buffer are
    [00 00 00 01]: read as a little-endian u32 they are 16777216, not 1.
    [_setSize] encodes the count with [_fillArrayInt], where [htole32]
    swaps the value before the shifts take its bytes out from the low
    end. *)
Theorem streamOut_scalar_prefix_big_endian (T : CType) (k : SerializedMember) (v : Z) :
  supported T ->
  firstn 4 (snd (streamOut BIG_ENDIAN T k v)) = [0x00; 0x00; 0x00; 0x01]
  /\ le_u32 (snd (streamOut BIG_ENDIAN T k v)) = 16777216
  /\ le_u32 (snd (streamOut BIG_ENDIAN T k v)) <> 1.
Proof.
  intros HT.
  assert (Hpre : firstn 4 (snd (streamOut BIG_ENDIAN T k v)) = [0; 0; 0; 1]).
  { unfold streamOut.
    destruct (_fillArray_supported_length BIG_ENDIAN T v HT) as [Hlen Hpos].
    rewrite Hlen. destruct (Z.eqb_spec (byteWidth T) 0) as [E | _]; [lia |].
    cbn [snd]. unfold _setSize. reflexivity. }
  split; [exact Hpre |].
  unfold le_u32. rewrite Hpre. split; [reflexivity | discriminate].
Qed.

Lemma streamOut_scalar_prefix_big_endian_witness :
  supported uint16_t
  /\ firstn 4 (snd (streamOut BIG_ENDIAN uint16_t (NONE, []) 0x1234))
     = [0x00; 0x00; 0x00; 0x01]
  /\ le_u32 (snd (streamOut BIG_ENDIAN uint16_t (NONE, []) 0x1234)) = 16777216
  /\ le_u32 (snd (streamOut BIG_ENDIAN uint16_t (NONE, []) 0x1234)) <> 1.
Proof.
  assert (H : supported uint16_t) by (unfold supported; vm_compute; discriminate).
  split; [exact H |].
  exact (streamOut_scalar_prefix_big_endian uint16_t (NONE, []) 0x1234 H).
Defined.

(** C7, on the code: on a big-endian host the buffer built by
    [fillOutputVector] starts with the four bytes of the count most
    significant first, for every element type and sequence; the
    [uint8_t] sequence [{1,2,3}] gives [00 00 00 03 01 02 03], whose
    prefix read as a little-endian u32 is 50331648, not 3. *)
Theorem fillOutputVector_prefix_big_endian (T : CType) (s : list Z) :
  let enc := encoded BIG_ENDIAN T s in
  let count := Z.of_nat (length enc) in
  fillOutputVector BIG_ENDIAN T s = rev (bytes_of 4 count) ++ concat enc
  /\ fillOutputVector BIG_ENDIAN uint8_t [1; 2; 3]
     = [0x00; 0x00; 0x00; 0x03; 0x01; 0x02; 0x03]
  /\ le_u32 (fillOutputVector BIG_ENDIAN uint8_t [1; 2; 3]) = 50331648.
Proof.
  intros enc count.
  split; [| split; reflexivity].
  unfold fillOutputVector, _setSize.
  destruct (fillOutputVector_loop_spec BIG_ENDIAN T s
              (uint32 (Z.of_nat (length s))) []) as [Ht Hs].
  rewrite Ht, Hs, uint32_sub_l, _fillArrayInt_uint32_big_endian.
  unfold uint32. rewrite (bytes_of_mod 4 32) by lia.
  replace (Z.of_nat (length s) -
           (Z.of_nat (length s) - Z.of_nat (length (encoded BIG_ENDIAN T s))))
    with count by (subst count enc; lia).
  reflexivity.
Qed.

(* ------------------------------------------------------------------ *)
(** ** The prototype a second registration offers *)

(** C2, on the code: after [add("Foo", p1)] and [add("Foo", p2)] on an
    empty registry the registry holds [p1] only; [p2] is not destroyed by
    the rejected registration, it is still on the heap and the registry
    does not hold it, so the destructor, which deletes [p1], leaves it
    there: nothing ever deletes it. *)
Theorem add_twice_second_leaks :
  let protoFoo := {| dynamic_type := "Foo"; _members := ∅ |} in
  let protoBar := {| dynamic_type := "Bar"; _members := ∅ |} in
  let st := {| heap := {[ 1%N := protoFoo; 2%N := protoBar ]}; _serializables := ∅ |} in
  let st2 := add "Foo" 2%N (add "Foo" 1%N st) in
  _serializables st2 !! "Foo" = Some 1%N
  /\ heap st2 !! 2%N = Some protoBar
  /\ prototypes st2 = [1%N]
  /\ exists st3, Factory_dtor st2 = Done st3
                 /\ heap st3 !! 1%N = None
                 /\ heap st3 !! 2%N = Some protoBar.
Proof.
  intros protoFoo protoBar st st2.
  split; [reflexivity |]. split; [reflexivity |].
  split; [vm_compute; reflexivity |].
  eexists. split; [vm_compute; reflexivity |].
  split; vm_compute; reflexivity.
Qed.
